(** * PaymentServiceControl: the payment-service adapter of the
      [paymentservice] sample, embedded from
      [src/paymentservice/src/PaymentServiceControl.cpp].

    The adapter forwards six kinds of requests to the platform's payment
    manager, connects the [finished()] signal of each reply object to a
    slot, and, in the slot, re-emits either the shared error signal or
    the success signal of that kind before scheduling the reply object
    for deletion.  One static helper, [receiptToString], renders a
    purchase receipt as text. *)

From Stdlib Require Import String Ascii List ZArith Bool Lia.
From Stdlib Require Import DecimalString.
Import ListNotations.

Local Open Scope list_scope.
Local Open Scope string_scope.

(** ** Qt value types used by the adapter *)

(** The C++ escape [\n] inside a string literal: one line-feed character. *)
Definition LF : string := String (ascii_of_nat 10) EmptyString.

(** [QString::isEmpty()]: the string has no characters. *)
Definition isEmpty (s : string) : bool :=
  match s with
  | EmptyString => true
  | String _ _ => false
  end.

(** [QList<T>::isEmpty()]: the list has no items. *)
Definition QList_isEmpty {A : Type} (l : list A) : bool :=
  match l with
  | [] => true
  | _ :: _ => false
  end.

(** [QString::number(int)]: base-10 digits, a leading minus sign for a
    negative number, no leading zeros. *)
Definition number (n : Z) : string := NilZero.string_of_int (Z.to_int n).

(** [QDateTime], seen through the two member functions the adapter calls.
    The class itself belongs to Qt; a value stands for a date-time object
    together with what [isNull()] and [toString()] answer on it. *)
Module QDateTime.
Record t : Type := make { isNull : bool; toString : string }.
End QDateTime.

(** [bb::platform::PurchaseReceipt], one accessor per field.  [state] is
    the enumerator of [DigitalGoodState::Type], kept as its underlying
    integer, which is all [static_cast<int>] observes. *)
Module PurchaseReceipt.
Record t : Type := make {
  date : QDateTime.t;
  digitalGoodId : string;
  digitalGoodSku : string;
  purchaseId : string;
  licenseKey : string;
  purchaseMetadata : string;
  state : Z;
  isSubscription : bool;
  startDate : QDateTime.t;
  endDate : QDateTime.t;
  initialPeriod : Z
}.
End PurchaseReceipt.

Definition static_cast_int (state : Z) : Z := state.

(** ** The formatting helper *)

(** [static QString receiptToString(bb::platform::PurchaseReceipt r)] *)
Definition receiptToString (r : PurchaseReceipt.t) : string :=
  let initialPeriod := number (PurchaseReceipt.initialPeriod r) in
  let startDate := PurchaseReceipt.startDate r in
  let startDateStr :=
    if QDateTime.isNull startDate then "N/A" else QDateTime.toString startDate in
  let endDate := PurchaseReceipt.endDate r in
  let endDateStr :=
    if QDateTime.isNull endDate then "N/A" else QDateTime.toString endDate in
  let isSubscr := if PurchaseReceipt.isSubscription r then "true" else "false" in
  let itemStateStr := number (static_cast_int (PurchaseReceipt.state r)) in
  let displayString :=
    "Date: " ++ QDateTime.toString (PurchaseReceipt.date r) ++
    (LF ++ "ID/SKU: ") ++ PurchaseReceipt.digitalGoodId r ++ "/" ++
      PurchaseReceipt.digitalGoodSku r ++
    (LF ++ "PurchaseID/licenseKey: ") ++ PurchaseReceipt.purchaseId r ++ "/" ++
      PurchaseReceipt.licenseKey r ++
    (LF ++ "Metadata: ") ++ PurchaseReceipt.purchaseMetadata r ++
    (LF ++ "ItemState/isSubscription?: ") ++ itemStateStr ++ "/" ++ isSubscr ++
    (LF ++ "Start/End: ") ++ startDateStr ++ "/" ++ endDateStr ++
    (LF ++ "InitialPeriod: ") ++ initialPeriod ++ LF in
  displayString.

Definition sampleDate : QDateTime.t :=
  QDateTime.make false "Wed May 20 03:40:13 1998".
Definition nullDate : QDateTime.t := QDateTime.make true "".
Definition sampleReceipt : PurchaseReceipt.t :=
  PurchaseReceipt.make sampleDate "item1" "sku1" "p-42" "KEY" "{}" 1 false
    nullDate nullDate 0.
Definition sampleSubscription : PurchaseReceipt.t :=
  PurchaseReceipt.make sampleDate "item2" "sku2" "p-43" "" "" 2 true
    sampleDate (QDateTime.make false "Thu May 20 03:40:13 1999") (-30).


(** ** Reply objects of the payment manager

    The classes are declared in the platform's headers; the accessors
    below are the ones the adapter calls, with the types it uses them
    at. *)

(** [bb::platform::PaymentReply], the base class of every reply: the
    error flag and the error code and text that go with it. *)
Record PaymentReply : Type := mkPaymentReply {
  isError : bool;
  errorCode : Z;
  errorText : string
}.

Module PurchaseReply.
Record t : Type := make { base : PaymentReply; receipt : PurchaseReceipt.t }.
End PurchaseReply.
Coercion PurchaseReply.base : PurchaseReply.t >-> PaymentReply.

Module ExistingPurchasesReply.
Record t : Type :=
  make { base : PaymentReply; purchases : list PurchaseReceipt.t }.
End ExistingPurchasesReply.
Coercion ExistingPurchasesReply.base : ExistingPurchasesReply.t >-> PaymentReply.

Module PriceReply.
Record t : Type := make { base : PaymentReply; price : string }.
End PriceReply.
Coercion PriceReply.base : PriceReply.t >-> PaymentReply.

Module SubscriptionTermsReply.
Record t : Type := make {
  base : PaymentReply;
  price : string;
  initialPeriod : string;
  renewalPrice : string;
  renewalPeriod : string
}.
End SubscriptionTermsReply.
Coercion SubscriptionTermsReply.base : SubscriptionTermsReply.t >-> PaymentReply.

Module SubscriptionStatusReply.
Record t : Type := make { base : PaymentReply; isActive : bool }.
End SubscriptionStatusReply.
Coercion SubscriptionStatusReply.base : SubscriptionStatusReply.t >-> PaymentReply.

Module CancelSubscriptionReply.
Record t : Type := make { base : PaymentReply; isCanceled : bool }.
End CancelSubscriptionReply.
Coercion CancelSubscriptionReply.base : CancelSubscriptionReply.t >-> PaymentReply.

(** The dynamic type of the object behind a [QObject*]: one of the six
    reply classes. *)
Inductive QObject : Type :=
| IsPurchaseReply (r : PurchaseReply.t)
| IsExistingPurchasesReply (r : ExistingPurchasesReply.t)
| IsPriceReply (r : PriceReply.t)
| IsSubscriptionTermsReply (r : SubscriptionTermsReply.t)
| IsSubscriptionStatusReply (r : SubscriptionStatusReply.t)
| IsCancelSubscriptionReply (r : CancelSubscriptionReply.t).

(** The address of a reply object on the heap. *)
Definition ReplyPtr : Type := nat.

(** ** Signals, slots and observable effects *)

(** The signals [PaymentServiceControl] emits. *)
Inductive Signal : Type :=
| infoResponseError (errorCode : Z) (errorText : string)
| purchaseResponseSuccess (receiptString : string)
| existingPurchasesResponseSuccess (receiptsString : string)
| priceResponseSuccess (price : string)
| subscriptionTermsResponseSuccess
    (price initialPeriod renewalPrice renewalPeriod : string)
| checkStatusResponseSuccess (status : bool)
| cancelSubscriptionResponseSuccess (canceled : bool).

(** The six slots named in the [SLOT(...)] arguments of [connect]. *)
Inductive Slot : Type :=
| SLOT_purchaseResponse
| SLOT_existingPurchasesResponse
| SLOT_priceResponse
| SLOT_subscriptionTermsResponse
| SLOT_subscriptionStatusResponse
| SLOT_cancelSubscriptionResponse.

(** The member functions of [PaymentManager] the adapter calls, with
    their arguments. *)
Inductive Request : Type :=
| requestPurchase (id sku name metadata : string)
| requestExistingPurchases (refresh : bool)
| requestPrice (id sku : string)
| requestSubscriptionTerms (id sku : string)
| requestSubscriptionStatus (id sku : string)
| requestCancelSubscription (purchaseId : string).

(** One operand streamed into [qDebug()]. *)
Inductive DebugArg : Type :=
| D_chars (s : string)
| D_QString (s : string)
| D_int (n : Z)
| D_bool (b : bool).

(** What the adapter does to its surroundings, in program order. *)
Inductive Effect : Type :=
| QDebug (line : list DebugArg)
| Issue (reply : ReplyPtr) (req : Request)
| Connect (reply : ReplyPtr) (slot : Slot)
| Emit (sig : Signal)
| DeleteLater (reply : ReplyPtr).

(** The surroundings of the adapter: the next address the payment manager
    hands out, the object [QObject::sender()] answers while a slot runs,
    and the effects so far. *)
Record World : Type := mkWorld {
  next_reply : ReplyPtr;
  w_sender : option (ReplyPtr * QObject);
  trace : list Effect
}.

Definition initial_world : World := mkWorld 0 None [].

(** ** The command monad: state passing, [None] for a failed assertion *)

Definition M (A : Type) : Type := World -> option (A * World).

Definition ret {A : Type} (a : A) : M A := fun w => Some (a, w).

Definition bind {A B : Type} (m : M A) (k : A -> M B) : M B :=
  fun w =>
    match m w with
    | None => None
    | Some (a, w') => k a w'
    end.

Definition abort {A : Type} : M A := fun _ => None.

Declare Scope cmd_scope.
Delimit Scope cmd_scope with cmd.
Notation "x <- m ;; k" := (bind m (fun x => k))
  (at level 61, m at next level, right associativity) : cmd_scope.
Notation "m ;; k" := (bind m (fun _ => k))
  (at level 61, right associativity) : cmd_scope.
Local Open Scope cmd_scope.

Definition log (e : Effect) : M unit :=
  fun w => Some (tt, mkWorld (next_reply w) (w_sender w) (trace w ++ [e])%list).

Definition qDebug (line : list DebugArg) : M unit := log (QDebug line).

Definition emit (sig : Signal) : M unit := log (Emit sig).

Definition deleteLater (reply : ReplyPtr) : M unit := log (DeleteLater reply).

(** [QObject::connect(reply, SIGNAL(finished()), this, SLOT(slot))]: the
    signal and the six slots exist, so the connection is made. *)
Definition connect (reply : ReplyPtr) (slot : Slot) : M bool :=
  log (Connect reply slot) ;; ret true.

Definition Q_ASSERT (cond : bool) : M unit :=
  if cond then ret tt else abort.

Definition sender : M (option (ReplyPtr * QObject)) :=
  fun w => Some (w_sender w, w).

(** [m_paymentManager->request...(...)]: the manager allocates a reply
    object and returns its address. *)
Definition m_paymentManager (req : Request) : M ReplyPtr :=
  fun w =>
    let reply := next_reply w in
    Some (reply,
          mkWorld (S reply) (w_sender w) (trace w ++ [Issue reply req])%list).

(** [qobject_cast<T*>(sender())]: the pointer when the object is a [T],
    the null pointer otherwise. *)
Definition qobject_cast_PurchaseReply (s : option (ReplyPtr * QObject))
  : option (ReplyPtr * PurchaseReply.t) :=
  match s with Some (p, IsPurchaseReply r) => Some (p, r) | _ => None end.

Definition qobject_cast_ExistingPurchasesReply (s : option (ReplyPtr * QObject))
  : option (ReplyPtr * ExistingPurchasesReply.t) :=
  match s with Some (p, IsExistingPurchasesReply r) => Some (p, r) | _ => None end.

Definition qobject_cast_PriceReply (s : option (ReplyPtr * QObject))
  : option (ReplyPtr * PriceReply.t) :=
  match s with Some (p, IsPriceReply r) => Some (p, r) | _ => None end.

Definition qobject_cast_SubscriptionTermsReply (s : option (ReplyPtr * QObject))
  : option (ReplyPtr * SubscriptionTermsReply.t) :=
  match s with Some (p, IsSubscriptionTermsReply r) => Some (p, r) | _ => None end.

Definition qobject_cast_SubscriptionStatusReply (s : option (ReplyPtr * QObject))
  : option (ReplyPtr * SubscriptionStatusReply.t) :=
  match s with Some (p, IsSubscriptionStatusReply r) => Some (p, r) | _ => None end.

Definition qobject_cast_CancelSubscriptionReply (s : option (ReplyPtr * QObject))
  : option (ReplyPtr * CancelSubscriptionReply.t) :=
  match s with Some (p, IsCancelSubscriptionReply r) => Some (p, r) | _ => None end.

(** ** The six operations and their slots *)

(** [void PaymentServiceControl::purchase(id, sku, name, metadata)] *)
Definition purchase (id sku name metadata : string) : M unit :=
  if isEmpty id then ret tt
  else
    qDebug [D_chars (LF ++ "Requesting purchase. ID:"); D_QString id;
            D_chars "SKU:"; D_QString sku; D_chars "Name:"; D_QString name;
            D_chars "Metadata:"; D_QString metadata] ;;
    reply <- m_paymentManager (requestPurchase id sku name metadata) ;;
    ok <- connect reply SLOT_purchaseResponse ;;
    Q_ASSERT ok.

(** [void PaymentServiceControl::purchaseResponse()] *)
Definition purchaseResponse : M unit :=
  s <- sender ;;
  match qobject_cast_PurchaseReply s with
  | None => Q_ASSERT false
  | Some (this, reply) =>
      (if isError reply then
         qDebug [D_chars "Purchase response error. Code(";
                 D_int (errorCode reply); D_chars ") Text(";
                 D_QString (errorText reply); D_chars ")"] ;;
         emit (infoResponseError (errorCode reply) (errorText reply))
       else
         let displayString := receiptToString (PurchaseReply.receipt reply) in
         qDebug [D_chars "Purchase response success. "; D_QString displayString] ;;
         emit (purchaseResponseSuccess displayString)) ;;
      deleteLater this
  end.

(** [void PaymentServiceControl::getExisting(bool refresh)] *)
Definition getExisting (refresh : bool) : M unit :=
  qDebug [D_chars "Get existing. refresh: "; D_bool refresh] ;;
  reply <- m_paymentManager (requestExistingPurchases refresh) ;;
  ok <- connect reply SLOT_existingPurchasesResponse ;;
  Q_ASSERT ok.

(** [void PaymentServiceControl::existingPurchasesResponse()]; the
    [Q_FOREACH] loop over the receipts is the left fold. *)
Definition existingPurchasesResponse : M unit :=
  s <- sender ;;
  match qobject_cast_ExistingPurchasesReply s with
  | None => Q_ASSERT false
  | Some (this, reply) =>
      (if isError reply then
         qDebug [D_chars "Existing purchases response error. Code(";
                 D_int (errorCode reply); D_chars ") Text(";
                 D_QString (errorText reply); D_chars ")"] ;;
         emit (infoResponseError (errorCode reply) (errorText reply))
       else
         qDebug [D_chars "Existing purchases response success. (TODO)"] ;;
         let receipts := ExistingPurchasesReply.purchases reply in
         if QList_isEmpty receipts then
           qDebug [D_chars "Existing purchases response success. (No purchases)"] ;;
           emit (existingPurchasesResponseSuccess "(No purchases)")
         else
           let displayString :=
             fold_left
               (fun displayString r => displayString ++ (receiptToString r ++ LF))
               receipts "" in
           emit (existingPurchasesResponseSuccess displayString)) ;;
      deleteLater this
  end.

(** [void PaymentServiceControl::getPrice(id, sku)] *)
Definition getPrice (id sku : string) : M unit :=
  if isEmpty id then ret tt
  else
    qDebug [D_chars "Requesting price. ID: "; D_QString id;
            D_chars " SKU: "; D_QString sku] ;;
    reply <- m_paymentManager (requestPrice id sku) ;;
    ok <- connect reply SLOT_priceResponse ;;
    Q_ASSERT ok.

(** [void PaymentServiceControl::priceResponse()] *)
Definition priceResponse : M unit :=
  s <- sender ;;
  match qobject_cast_PriceReply s with
  | None => Q_ASSERT false
  | Some (this, reply) =>
      (if isError reply then
         qDebug [D_chars "Price response error. Code(";
                 D_int (errorCode reply); D_chars ") Text(";
                 D_QString (errorText reply); D_chars ")"] ;;
         emit (infoResponseError (errorCode reply) (errorText reply))
       else
         qDebug [D_chars "Price response success. Price: ";
                 D_QString (PriceReply.price reply)] ;;
         emit (priceResponseSuccess (PriceReply.price reply))) ;;
      deleteLater this
  end.

(** [void PaymentServiceControl::getSubscriptionTerms(id, sku)] *)
Definition getSubscriptionTerms (id sku : string) : M unit :=
  if isEmpty id then ret tt
  else
    qDebug [D_chars "Requesting subscription terms. ID: "; D_QString id;
            D_chars " SKU: "; D_QString sku] ;;
    reply <- m_paymentManager (requestSubscriptionTerms id sku) ;;
    ok <- connect reply SLOT_subscriptionTermsResponse ;;
    Q_ASSERT ok.

(** [void PaymentServiceControl::subscriptionTermsResponse()] *)
Definition subscriptionTermsResponse : M unit :=
  s <- sender ;;
  match qobject_cast_SubscriptionTermsReply s with
  | None => Q_ASSERT false
  | Some (this, reply) =>
      (if isError reply then
         qDebug [D_chars "Sub terms response error. Code(";
                 D_int (errorCode reply); D_chars ") Text(";
                 D_QString (errorText reply); D_chars ")"] ;;
         emit (infoResponseError (errorCode reply) (errorText reply))
       else
         qDebug [D_chars "Sub terms response success. Price: ";
                 D_QString (SubscriptionTermsReply.price reply);
                 D_chars (LF ++ "InitialPeriod: ");
                 D_QString (SubscriptionTermsReply.initialPeriod reply);
                 D_chars (LF ++ "RenewalPrice: ");
                 D_QString (SubscriptionTermsReply.renewalPrice reply);
                 D_chars (LF ++ "RenewalPeriod: ");
                 D_QString (SubscriptionTermsReply.renewalPeriod reply)] ;;
         emit (subscriptionTermsResponseSuccess
                 (SubscriptionTermsReply.price reply)
                 (SubscriptionTermsReply.initialPeriod reply)
                 (SubscriptionTermsReply.renewalPrice reply)
                 (SubscriptionTermsReply.renewalPeriod reply))) ;;
      deleteLater this
  end.

(** [void PaymentServiceControl::checkSubscriptionStatus(id, sku)] *)
Definition checkSubscriptionStatus (id sku : string) : M unit :=
  if isEmpty id then ret tt
  else
    qDebug [D_chars "Check subscription status. ID: "; D_QString id;
            D_chars " SKU: "; D_QString sku] ;;
    reply <- m_paymentManager (requestSubscriptionStatus id sku) ;;
    ok <- connect reply SLOT_subscriptionStatusResponse ;;
    Q_ASSERT ok.

(** [void PaymentServiceControl::subscriptionStatusResponse()] *)
Definition subscriptionStatusResponse : M unit :=
  s <- sender ;;
  match qobject_cast_SubscriptionStatusReply s with
  | None => Q_ASSERT false
  | Some (this, reply) =>
      (if isError reply then
         qDebug [D_chars "Check status response error. Code(";
                 D_int (errorCode reply); D_chars ") Text(";
                 D_QString (errorText reply); D_chars ")"] ;;
         emit (infoResponseError (errorCode reply) (errorText reply))
       else
         qDebug [D_chars "Check status response success. Active? ";
                 D_bool (SubscriptionStatusReply.isActive reply)] ;;
         emit (checkStatusResponseSuccess (SubscriptionStatusReply.isActive reply))) ;;
      deleteLater this
  end.

(** [void PaymentServiceControl::cancelSubscription(purchaseId)] *)
Definition cancelSubscription (purchaseId : string) : M unit :=
  if isEmpty purchaseId then ret tt
  else
    qDebug [D_chars "Cancel subscription. Purchase ID: "; D_QString purchaseId] ;;
    reply <- m_paymentManager (requestCancelSubscription purchaseId) ;;
    ok <- connect reply SLOT_cancelSubscriptionResponse ;;
    Q_ASSERT ok.

(** [void PaymentServiceControl::cancelSubscriptionResponse()] *)
Definition cancelSubscriptionResponse : M unit :=
  s <- sender ;;
  match qobject_cast_CancelSubscriptionReply s with
  | None => Q_ASSERT false
  | Some (this, reply) =>
      (if isError reply then
         qDebug [D_chars "Cancel subscription response error. Code(";
                 D_int (errorCode reply); D_chars ") Text(";
                 D_QString (errorText reply); D_chars ")"] ;;
         emit (infoResponseError (errorCode reply) (errorText reply))
       else
         qDebug [D_chars "Cancel subscription response success. Canceled? ";
                 D_bool (CancelSubscriptionReply.isCanceled reply)] ;;
         emit (cancelSubscriptionResponseSuccess
                 (CancelSubscriptionReply.isCanceled reply))) ;;
      deleteLater this
  end.

(** ** Delivery of [finished()] *)

Definition run_slot (slot : Slot) : M unit :=
  match slot with
  | SLOT_purchaseResponse => purchaseResponse
  | SLOT_existingPurchasesResponse => existingPurchasesResponse
  | SLOT_priceResponse => priceResponse
  | SLOT_subscriptionTermsResponse => subscriptionTermsResponse
  | SLOT_subscriptionStatusResponse => subscriptionStatusResponse
  | SLOT_cancelSubscriptionResponse => cancelSubscriptionResponse
  end.

(** The slots connected to the [finished()] signal of [reply], in the
    order the connections were made. *)
Fixpoint connected (reply : ReplyPtr) (tr : list Effect) : list Slot :=
  match tr with
  | [] => []
  | Connect p slot :: tr' =>
      if Nat.eqb p reply then slot :: connected reply tr'
      else connected reply tr'
  | _ :: tr' => connected reply tr'
  end.

(** The requests for which the payment manager returned [reply]. *)
Fixpoint issued (reply : ReplyPtr) (tr : list Effect) : list Request :=
  match tr with
  | [] => []
  | Issue p req :: tr' =>
      if Nat.eqb p reply then req :: issued reply tr'
      else issued reply tr'
  | _ :: tr' => issued reply tr'
  end.

Fixpoint activate (slots : list Slot) : M unit :=
  match slots with
  | [] => ret tt
  | slot :: rest => run_slot slot ;; activate rest
  end.

Definition with_sender (s : option (ReplyPtr * QObject)) (w : World) : World :=
  mkWorld (next_reply w) s (trace w).

(** The reply object at [reply], now holding [obj], emits [finished()]:
    every connected slot runs with that object as its sender. *)
Definition finished (reply : ReplyPtr) (obj : QObject) : M unit :=
  fun w =>
    match activate (connected reply (trace w)) (with_sender (Some (reply, obj)) w) with
    | None => None
    | Some (_, w') => Some (tt, with_sender (w_sender w) w')
    end.

(** The signals emitted along a trace, oldest first. *)
Fixpoint notifications (tr : list Effect) : list Signal :=
  match tr with
  | [] => []
  | Emit sig :: tr' => sig :: notifications tr'
  | _ :: tr' => notifications tr'
  end.

(** The requests the payment manager received along a trace. *)
Fixpoint requests (tr : list Effect) : list Request :=
  match tr with
  | [] => []
  | Issue _ req :: tr' => req :: requests tr'
  | _ :: tr' => requests tr'
  end.

(** The reply objects scheduled for deletion along a trace. *)
Fixpoint released (tr : list Effect) : list ReplyPtr :=
  match tr with
  | [] => []
  | DeleteLater p :: tr' => p :: released tr'
  | _ :: tr' => released tr'
  end.

(** ** Vocabulary for the statements *)

Definition reply_base (obj : QObject) : PaymentReply :=
  match obj with
  | IsPurchaseReply r => r
  | IsExistingPurchasesReply r => r
  | IsPriceReply r => r
  | IsSubscriptionTermsReply r => r
  | IsSubscriptionStatusReply r => r
  | IsCancelSubscriptionReply r => r
  end.

(** The slot whose [qobject_cast] accepts the object. *)
Definition reply_slot (obj : QObject) : Slot :=
  match obj with
  | IsPurchaseReply _ => SLOT_purchaseResponse
  | IsExistingPurchasesReply _ => SLOT_existingPurchasesResponse
  | IsPriceReply _ => SLOT_priceResponse
  | IsSubscriptionTermsReply _ => SLOT_subscriptionTermsResponse
  | IsSubscriptionStatusReply _ => SLOT_subscriptionStatusResponse
  | IsCancelSubscriptionReply _ => SLOT_cancelSubscriptionResponse
  end.

(** The slot each operation connects to the reply of the request it
    issues. *)
Definition request_slot (req : Request) : Slot :=
  match req with
  | requestPurchase _ _ _ _ => SLOT_purchaseResponse
  | requestExistingPurchases _ => SLOT_existingPurchasesResponse
  | requestPrice _ _ => SLOT_priceResponse
  | requestSubscriptionTerms _ _ => SLOT_subscriptionTermsResponse
  | requestSubscriptionStatus _ _ => SLOT_subscriptionStatusResponse
  | requestCancelSubscription _ => SLOT_cancelSubscriptionResponse
  end.

(** The success signal that belongs to a slot; [None] is the shared
    error signal. *)
Definition channel (sig : Signal) : option Slot :=
  match sig with
  | infoResponseError _ _ => None
  | purchaseResponseSuccess _ => Some SLOT_purchaseResponse
  | existingPurchasesResponseSuccess _ => Some SLOT_existingPurchasesResponse
  | priceResponseSuccess _ => Some SLOT_priceResponse
  | subscriptionTermsResponseSuccess _ _ _ _ => Some SLOT_subscriptionTermsResponse
  | checkStatusResponseSuccess _ => Some SLOT_subscriptionStatusResponse
  | cancelSubscriptionResponseSuccess _ => Some SLOT_cancelSubscriptionResponse
  end.

(** A call of one of the six public operations. *)
Inductive Call : Type :=
| call_purchase (id sku name metadata : string)
| call_getExisting (refresh : bool)
| call_getPrice (id sku : string)
| call_getSubscriptionTerms (id sku : string)
| call_checkSubscriptionStatus (id sku : string)
| call_cancelSubscription (purchaseId : string).

Definition invoke (c : Call) : M unit :=
  match c with
  | call_purchase id sku name metadata => purchase id sku name metadata
  | call_getExisting refresh => getExisting refresh
  | call_getPrice id sku => getPrice id sku
  | call_getSubscriptionTerms id sku => getSubscriptionTerms id sku
  | call_checkSubscriptionStatus id sku => checkSubscriptionStatus id sku
  | call_cancelSubscription purchaseId => cancelSubscription purchaseId
  end.

(** The identifying parameter of a call, for the operations that have
    one. *)
Definition identifying (c : Call) : option string :=
  match c with
  | call_purchase id _ _ _ => Some id
  | call_getExisting _ => None
  | call_getPrice id _ => Some id
  | call_getSubscriptionTerms id _ => Some id
  | call_checkSubscriptionStatus id _ => Some id
  | call_cancelSubscription purchaseId => Some purchaseId
  end.

(** The request a call asks of the payment manager, all arguments
    included. *)
Definition request_of (c : Call) : Request :=
  match c with
  | call_purchase id sku name metadata => requestPurchase id sku name metadata
  | call_getExisting refresh => requestExistingPurchases refresh
  | call_getPrice id sku => requestPrice id sku
  | call_getSubscriptionTerms id sku => requestSubscriptionTerms id sku
  | call_checkSubscriptionStatus id sku => requestSubscriptionStatus id sku
  | call_cancelSubscription purchaseId => requestCancelSubscription purchaseId
  end.

(** One step of the adapter's life: the application calls an operation,
    or the provider completes a reply it handed out with an object of
    the class that request returns. *)
Inductive Step : World -> World -> Prop :=
| step_call (c : Call) (w w' : World) :
    invoke c w = Some (tt, w') -> Step w w'
| step_finished (reply : ReplyPtr) (req : Request) (obj : QObject) (w w' : World) :
    In (Issue reply req) (trace w) ->
    reply_slot obj = request_slot req ->
    finished reply obj w = Some (tt, w') ->
    Step w w'.

Inductive reachable : World -> Prop :=
| reach_initial : reachable initial_world
| reach_step (w w' : World) : reachable w -> Step w w' -> reachable w'.

(** What every reachable world satisfies: the slots connected to a reply
    are those of the requests issued on it, a reply is issued at most
    once, and no reply at or beyond the next address is issued yet. *)
Definition consistent (w : World) : Prop :=
  forall p : ReplyPtr,
    connected p (trace w) = map request_slot (issued p (trace w)) /\
    length (issued p (trace w)) <= 1 /\
    (next_reply w <= p -> issued p (trace w) = []).

(** The seven lines of a receipt block, with the texts of the two
    optional dates left open. *)
Definition block_lines (r : PurchaseReceipt.t) (startText endText : string)
  : list string :=
  [ "Date: " ++ QDateTime.toString (PurchaseReceipt.date r);
    "ID/SKU: " ++ PurchaseReceipt.digitalGoodId r ++ "/" ++
      PurchaseReceipt.digitalGoodSku r;
    "PurchaseID/licenseKey: " ++ PurchaseReceipt.purchaseId r ++ "/" ++
      PurchaseReceipt.licenseKey r;
    "Metadata: " ++ PurchaseReceipt.purchaseMetadata r;
    "ItemState/isSubscription?: " ++ number (PurchaseReceipt.state r) ++ "/" ++
      (if PurchaseReceipt.isSubscription r then "true" else "false");
    "Start/End: " ++ startText ++ "/" ++ endText;
    "InitialPeriod: " ++ number (PurchaseReceipt.initialPeriod r) ].

(** The text of an optional date as the specification words it: the
    literal N/A when absent, the formatted date when present. *)
Definition date_text (d : QDateTime.t) : string :=
  if QDateTime.isNull d then "N/A" else QDateTime.toString d.

(** The body of the loop over the receipts in
    [existingPurchasesResponse]. *)
Definition foreach_body (displayString : string) (r : PurchaseReceipt.t) : string :=
  displayString ++ (receiptToString r ++ LF).

(** The signal a slot emits for a completed reply, read off the two
    branches of each slot: the shared error signal with the reply's code
    and text when the error flag is set, the success signal of the
    reply's class with its payload when it is not. *)
Definition outcome (obj : QObject) : Signal :=
  if isError (reply_base obj) then
    infoResponseError (errorCode (reply_base obj)) (errorText (reply_base obj))
  else
    match obj with
    | IsPurchaseReply r =>
        purchaseResponseSuccess (receiptToString (PurchaseReply.receipt r))
    | IsExistingPurchasesReply r =>
        existingPurchasesResponseSuccess
          (if QList_isEmpty (ExistingPurchasesReply.purchases r)
           then "(No purchases)"
           else fold_left foreach_body (ExistingPurchasesReply.purchases r) "")
    | IsPriceReply r => priceResponseSuccess (PriceReply.price r)
    | IsSubscriptionTermsReply r =>
        subscriptionTermsResponseSuccess
          (SubscriptionTermsReply.price r)
          (SubscriptionTermsReply.initialPeriod r)
          (SubscriptionTermsReply.renewalPrice r)
          (SubscriptionTermsReply.renewalPeriod r)
    | IsSubscriptionStatusReply r =>
        checkStatusResponseSuccess (SubscriptionStatusReply.isActive r)
    | IsCancelSubscriptionReply r =>
        cancelSubscriptionResponseSuccess (CancelSubscriptionReply.isCanceled r)
    end.

(** The number of line-feed characters in a text. *)
Fixpoint count_LF (s : string) : nat :=
  match s with
  | EmptyString => 0
  | String c s' =>
      (if Ascii.eqb c (ascii_of_nat 10) then 1 else 0) + count_LF s'
  end.


(** ** Sample data *)

Definition okReply : PaymentReply := mkPaymentReply false 0 "".
Definition failedReply : PaymentReply := mkPaymentReply true 3 "User cancelled".

Definition twoPurchases : ExistingPurchasesReply.t :=
  ExistingPurchasesReply.make okReply [sampleReceipt; sampleSubscription].

Definition purchasedWorld : World :=
  mkWorld 1 None
    [QDebug [D_chars (LF ++ "Requesting purchase. ID:"); D_QString "item1";
             D_chars "SKU:"; D_QString ""; D_chars "Name:"; D_QString "";
             D_chars "Metadata:"; D_QString ""];
     Issue 0 (requestPurchase "item1" "" "" "");
     Connect 0 SLOT_purchaseResponse].

Definition twoInFlight : World :=
  mkWorld 2 None
    (trace purchasedWorld ++
     [QDebug [D_chars "Requesting price. ID: "; D_QString "item1";
              D_chars " SKU: "; D_QString "sku1"];
      Issue 1 (requestPrice "item1" "sku1");
      Connect 1 SLOT_priceResponse]).

(** * Properties *)

(** ** Concrete runs *)

Example number_samples :
  number 0 = "0" /\ number 12 = "12" /\ number (-30) = "-30".
Proof. repeat split. Qed.

Example receipt_sample :
  receiptToString sampleReceipt =
    "Date: Wed May 20 03:40:13 1998" ++ LF ++
    "ID/SKU: item1/sku1" ++ LF ++
    "PurchaseID/licenseKey: p-42/KEY" ++ LF ++
    "Metadata: {}" ++ LF ++
    "ItemState/isSubscription?: 1/false" ++ LF ++
    "Start/End: N/A/N/A" ++ LF ++
    "InitialPeriod: 0" ++ LF.
Proof. reflexivity. Qed.

Example purchase_sample : purchase "item1" "" "" "" initial_world = Some (tt, purchasedWorld).
Proof. reflexivity. Qed.

Example purchase_empty_id_sample :
  purchase "" "sku1" "name" "{}" initial_world = Some (tt, initial_world).
Proof. reflexivity. Qed.

Example price_sample :
  option_map (fun r => notifications (trace (snd r)))
    ((getPrice "item1" "sku1" ;;
      finished 0 (IsPriceReply (PriceReply.make okReply "$0.99"))) initial_world) =
  Some [priceResponseSuccess "$0.99"].
Proof. reflexivity. Qed.

Example status_sample :
  option_map (fun r => notifications (trace (snd r)))
    ((checkSubscriptionStatus "item1" "sku1" ;;
      finished 0 (IsSubscriptionStatusReply (SubscriptionStatusReply.make okReply true)))
       initial_world) =
  Some [checkStatusResponseSuccess true].
Proof. reflexivity. Qed.

Example two_in_flight_sample :
  option_map (fun r => (notifications (trace (snd r)), released (trace (snd r))))
    ((purchase "item1" "" "" "" ;;
      getPrice "" "sku" ;;
      getExisting true ;;
      finished 1 (IsExistingPurchasesReply (ExistingPurchasesReply.make okReply [])) ;;
      finished 0 (IsPurchaseReply (PurchaseReply.make failedReply sampleReceipt)))
       initial_world) =
  Some ([existingPurchasesResponseSuccess "(No purchases)";
         infoResponseError 3 "User cancelled"], [1; 0]).
Proof. reflexivity. Qed.

Example wrong_class_aborts_sample :
  (purchase "item1" "" "" "" ;;
   finished 0 (IsPriceReply (PriceReply.make okReply "$0.99"))) initial_world = None.
Proof. reflexivity. Qed.

(** ** Strings *)

Lemma append_assoc (a b c : string) : (a ++ b) ++ c = a ++ (b ++ c).
Proof.
  induction a as [|ch a IH]; simpl.
  - reflexivity.
  - now rewrite IH.
Qed.

Lemma append_nil_r (a : string) : a ++ "" = a.
Proof.
  induction a as [|ch a IH]; simpl; [reflexivity | now rewrite IH].
Qed.

(** ** The formatting helper *)

Lemma receiptToString_lines (r : PurchaseReceipt.t) :
  receiptToString r =
  String.concat LF
    (block_lines r (date_text (PurchaseReceipt.startDate r))
                   (date_text (PurchaseReceipt.endDate r))) ++ LF.
Proof.
  unfold receiptToString, block_lines, date_text, static_cast_int.
  cbn [String.concat].
  repeat rewrite append_assoc.
  reflexivity.
Qed.

Lemma receiptToString_ends_LF (r : PurchaseReceipt.t) :
  exists body, receiptToString r = body ++ LF.
Proof.
  eexists. apply receiptToString_lines.
Qed.

(** ** The loop over the receipts *)

Lemma foreach_acc (rs : list PurchaseReceipt.t) (acc : string) :
  fold_left foreach_body rs acc = acc ++ fold_left foreach_body rs "".
Proof.
  revert acc.
  induction rs as [|r rs IH]; intros acc; simpl.
  - now rewrite append_nil_r.
  - rewrite IH. rewrite (IH (foreach_body "" r)).
    unfold foreach_body. simpl. now rewrite append_assoc.
Qed.

Lemma foreach_blocks (r : PurchaseReceipt.t) (rs : list PurchaseReceipt.t) :
  fold_left foreach_body (r :: rs) "" =
  String.concat LF (map receiptToString (r :: rs)) ++ LF.
Proof.
  revert r.
  induction rs as [|r' rs IH]; intros r.
  - reflexivity.
  - change (fold_left foreach_body (r :: r' :: rs) "")
      with (fold_left foreach_body (r' :: rs) (foreach_body "" r)).
    rewrite foreach_acc, IH.
    unfold foreach_body. simpl.
    now rewrite !append_assoc.
Qed.

(** ** Running a slot *)

Lemma notifications_app (tr1 tr2 : list Effect) :
  notifications (tr1 ++ tr2) = (notifications tr1 ++ notifications tr2)%list.
Proof.
  induction tr1 as [|e tr1 IH]; simpl; [reflexivity|].
  destruct e; simpl; now rewrite IH.
Qed.

Lemma notifications_debug (dbg : list (list DebugArg)) :
  notifications (map QDebug dbg) = [].
Proof.
  induction dbg as [|d dbg IH]; simpl; [reflexivity | exact IH].
Qed.

Lemma released_debug (dbg : list (list DebugArg)) :
  released (map QDebug dbg) = [].
Proof.
  induction dbg as [|d dbg IH]; simpl; [reflexivity | exact IH].
Qed.

Lemma connected_debug (p : ReplyPtr) (dbg : list (list DebugArg)) :
  connected p (map QDebug dbg) = [].
Proof.
  induction dbg as [|d dbg IH]; simpl; [reflexivity | exact IH].
Qed.

Lemma issued_debug (p : ReplyPtr) (dbg : list (list DebugArg)) :
  issued p (map QDebug dbg) = [].
Proof.
  induction dbg as [|d dbg IH]; simpl; [reflexivity | exact IH].
Qed.

Lemma released_app (tr1 tr2 : list Effect) :
  released (tr1 ++ tr2) = (released tr1 ++ released tr2)%list.
Proof.
  induction tr1 as [|e tr1 IH]; simpl; [reflexivity|].
  destruct e; simpl; now rewrite IH.
Qed.

Lemma requests_app (tr1 tr2 : list Effect) :
  requests (tr1 ++ tr2) = (requests tr1 ++ requests tr2)%list.
Proof.
  induction tr1 as [|e tr1 IH]; simpl; [reflexivity|].
  destruct e; simpl; now rewrite IH.
Qed.

Lemma connected_app (p : ReplyPtr) (tr1 tr2 : list Effect) :
  connected p (tr1 ++ tr2) = (connected p tr1 ++ connected p tr2)%list.
Proof.
  induction tr1 as [|e tr1 IH]; simpl; [reflexivity|].
  destruct e; simpl; try assumption.
  destruct (Nat.eqb reply p); simpl; now rewrite IH.
Qed.

Lemma issued_app (p : ReplyPtr) (tr1 tr2 : list Effect) :
  issued p (tr1 ++ tr2) = (issued p tr1 ++ issued p tr2)%list.
Proof.
  induction tr1 as [|e tr1 IH]; simpl; [reflexivity|].
  destruct e; simpl; try assumption.
  destruct (Nat.eqb reply p); simpl; now rewrite IH.
Qed.

(** Unfolds the commands of a slot or an operation on a given world. *)
Ltac run_cmd :=
  cbv beta iota zeta delta
      [run_slot reply_slot reply_base invoke
       purchase getExisting getPrice getSubscriptionTerms
       checkSubscriptionStatus cancelSubscription
       purchaseResponse existingPurchasesResponse priceResponse
       subscriptionTermsResponse subscriptionStatusResponse
       cancelSubscriptionResponse
       bind ret sender qDebug emit deleteLater log connect Q_ASSERT abort
       m_paymentManager with_sender next_reply w_sender trace
       isError errorCode errorText isEmpty QList_isEmpty
       PurchaseReply.base ExistingPurchasesReply.base PriceReply.base
       SubscriptionTermsReply.base SubscriptionStatusReply.base
       CancelSubscriptionReply.base ExistingPurchasesReply.purchases
       qobject_cast_PurchaseReply qobject_cast_ExistingPurchasesReply
       qobject_cast_PriceReply qobject_cast_SubscriptionTermsReply
       qobject_cast_SubscriptionStatusReply
       qobject_cast_CancelSubscriptionReply].

(** Reads the debug lines and the signal off an unfolded slot. *)
Ltac read_slot :=
  lazymatch goal with
  | |- context [((((_ ++ [QDebug ?d1]) ++ [QDebug ?d2]) ++ [Emit ?s]) ++ _)%list] =>
      exists [d1; d2], s
  | |- context [(((_ ++ [QDebug ?d1]) ++ [Emit ?s]) ++ _)%list] =>
      exists [d1], s
  | |- context [((_ ++ [Emit ?s]) ++ _)%list] =>
      exists (@nil (list DebugArg)), s
  end.

Lemma slot_runs (this : ReplyPtr) (obj : QObject) (w : World) :
  exists dbg sig,
    run_slot (reply_slot obj) (with_sender (Some (this, obj)) w) =
      Some (tt, mkWorld (next_reply w) (Some (this, obj))
                  (trace w ++ map QDebug dbg ++ [Emit sig; DeleteLater this])) /\
    channel sig =
      (if isError (reply_base obj) then None else Some (reply_slot obj)) /\
    (isError (reply_base obj) = true ->
     sig = infoResponseError (errorCode (reply_base obj))
                             (errorText (reply_base obj))).
Proof.
  destruct obj as [[[e c t] x]|[[e c t] x]|[[e c t] x]
                  |[[e c t] x1 x2 x3 x4]|[[e c t] x]|[[e c t] x]];
    destruct e;
    try match goal with x : list PurchaseReceipt.t |- _ => destruct x end;
    run_cmd; read_slot;
    (split; [simpl; now rewrite <- !app_assoc
            | split; [reflexivity | intros H; first [reflexivity | discriminate H]]]).
Qed.

Lemma existing_success_notifies
      (this : ReplyPtr) (reply : ExistingPurchasesReply.t) (w : World) :
  isError reply = false ->
  exists w',
    existingPurchasesResponse
      (with_sender (Some (this, IsExistingPurchasesReply reply)) w) = Some (tt, w') /\
    notifications (trace w') =
      (notifications (trace w) ++
       [existingPurchasesResponseSuccess
          (if QList_isEmpty (ExistingPurchasesReply.purchases reply)
           then "(No purchases)"
           else fold_left foreach_body (ExistingPurchasesReply.purchases reply) "")])%list.
Proof.
  destruct reply as [[e c t] rs]. simpl. intros ->.
  destruct rs as [|r rs]; run_cmd;
    (eexists; split; [reflexivity|]);
    cbn [trace]; rewrite !notifications_app; simpl;
    now rewrite ?app_nil_r.
Qed.

(** ** The formatting helper: layout and optional dates *)

(** C7: for every receipt the helper returns, as a function of the
    receipt alone, a block of seven lines, each closed by a newline, in
    this order: purchase date; digital-good id and sku; purchase id and
    license key; metadata; item-state code and subscription flag; start
    and end dates; initial period. *)
Theorem receipt_block_layout (r : PurchaseReceipt.t) :
  receiptToString r =
    String.concat LF
      [ "Date: " ++ QDateTime.toString (PurchaseReceipt.date r);
        "ID/SKU: " ++ PurchaseReceipt.digitalGoodId r ++ "/" ++
          PurchaseReceipt.digitalGoodSku r;
        "PurchaseID/licenseKey: " ++ PurchaseReceipt.purchaseId r ++ "/" ++
          PurchaseReceipt.licenseKey r;
        "Metadata: " ++ PurchaseReceipt.purchaseMetadata r;
        "ItemState/isSubscription?: " ++ number (PurchaseReceipt.state r) ++ "/" ++
          (if PurchaseReceipt.isSubscription r then "true" else "false");
        "Start/End: " ++ date_text (PurchaseReceipt.startDate r) ++ "/" ++
          date_text (PurchaseReceipt.endDate r);
        "InitialPeriod: " ++ number (PurchaseReceipt.initialPeriod r) ] ++ LF.
Proof.
  exact (receiptToString_lines r).
Qed.

(** C6: for every receipt, the start-date and end-date fields of the
    block are the literal N/A when the date is null and the date's
    [toString()] text when it is not. *)
Theorem optional_dates_rendering (r : PurchaseReceipt.t) :
  exists startText endText,
    receiptToString r = String.concat LF (block_lines r startText endText) ++ LF /\
    (QDateTime.isNull (PurchaseReceipt.startDate r) = true -> startText = "N/A") /\
    (QDateTime.isNull (PurchaseReceipt.startDate r) = false ->
     startText = QDateTime.toString (PurchaseReceipt.startDate r)) /\
    (QDateTime.isNull (PurchaseReceipt.endDate r) = true -> endText = "N/A") /\
    (QDateTime.isNull (PurchaseReceipt.endDate r) = false ->
     endText = QDateTime.toString (PurchaseReceipt.endDate r)).
Proof.
  exists (date_text (PurchaseReceipt.startDate r)),
         (date_text (PurchaseReceipt.endDate r)).
  split; [apply receiptToString_lines|].
  unfold date_text.
  destruct (QDateTime.isNull (PurchaseReceipt.startDate r)),
           (QDateTime.isNull (PurchaseReceipt.endDate r));
    repeat split; intros H; first [reflexivity | discriminate H].
Qed.

(** ** The existing-purchases payload *)

(** C5: when the provider reports success with an empty list of
    purchases, the slot emits the success signal with the payload
    (No purchases), and nothing else. *)
Theorem no_purchases_payload
        (this : ReplyPtr) (reply : ExistingPurchasesReply.t) (w : World) :
  isError reply = false ->
  ExistingPurchasesReply.purchases reply = [] ->
  exists w',
    existingPurchasesResponse
      (with_sender (Some (this, IsExistingPurchasesReply reply)) w) = Some (tt, w') /\
    notifications (trace w') =
      (notifications (trace w) ++
       [existingPurchasesResponseSuccess "(No purchases)"])%list.
Proof.
  intros Hok Hempty.
  destruct (existing_success_notifies this reply w Hok) as [w' [Hrun Hsig]].
  exists w'. split; [exact Hrun|].
  rewrite Hsig, Hempty. reflexivity.
Qed.

Lemma no_purchases_payload_witness :
  isError (ExistingPurchasesReply.make okReply []) = false /\
  ExistingPurchasesReply.purchases (ExistingPurchasesReply.make okReply []) = [] /\
  exists w',
    existingPurchasesResponse
      (with_sender
         (Some (0, IsExistingPurchasesReply (ExistingPurchasesReply.make okReply [])))
         initial_world) = Some (tt, w') /\
    notifications (trace w') =
      (notifications (trace initial_world) ++
       [existingPurchasesResponseSuccess "(No purchases)"])%list.
Proof.
  split; [reflexivity|]. split; [reflexivity|].
  apply (no_purchases_payload 0 (ExistingPurchasesReply.make okReply []) initial_world);
    reflexivity.
Defined.

(** C1: when the provider reports success with a non-empty list of
    receipts, the payload of the success signal is the formatted blocks
    of the receipts, one per receipt and in the list's order, consecutive
    blocks separated by one newline (a blank line, as each block ends in
    a newline), followed by one more newline. *)
Theorem existing_purchases_blocks
        (this : ReplyPtr) (reply : ExistingPurchasesReply.t) (w : World) :
  isError reply = false ->
  ExistingPurchasesReply.purchases reply <> [] ->
  exists w',
    existingPurchasesResponse
      (with_sender (Some (this, IsExistingPurchasesReply reply)) w) = Some (tt, w') /\
    notifications (trace w') =
      (notifications (trace w) ++
       [existingPurchasesResponseSuccess
          (String.concat LF
             (map receiptToString (ExistingPurchasesReply.purchases reply)) ++ LF)])%list /\
    length (map receiptToString (ExistingPurchasesReply.purchases reply)) =
      length (ExistingPurchasesReply.purchases reply).
Proof.
  intros Hok Hne.
  destruct (existing_success_notifies this reply w Hok) as [w' [Hrun Hsig]].
  exists w'. split; [exact Hrun|]. split; [|apply length_map].
  rewrite Hsig.
  destruct (ExistingPurchasesReply.purchases reply) as [|r rs]; [contradiction|].
  cbn [QList_isEmpty]. now rewrite foreach_blocks.
Qed.

Lemma existing_purchases_blocks_witness :
  isError twoPurchases = false /\
  ExistingPurchasesReply.purchases twoPurchases <> [] /\
  exists w',
    existingPurchasesResponse
      (with_sender (Some (0, IsExistingPurchasesReply twoPurchases)) initial_world) =
      Some (tt, w') /\
    notifications (trace w') =
      (notifications (trace initial_world) ++
       [existingPurchasesResponseSuccess
          (String.concat LF
             (map receiptToString (ExistingPurchasesReply.purchases twoPurchases)) ++
           LF)])%list /\
    length (map receiptToString (ExistingPurchasesReply.purchases twoPurchases)) =
      length (ExistingPurchasesReply.purchases twoPurchases).
Proof.
  split; [reflexivity|]. split; [discriminate|].
  apply (existing_purchases_blocks 0 twoPurchases initial_world);
    [reflexivity | discriminate].
Defined.

Lemma foreach_ends_blank (rs : list PurchaseReceipt.t) :
  rs <> [] ->
  exists text, fold_left foreach_body rs "" = text ++ LF ++ LF.
Proof.
  intros Hne.
  destruct (exists_last Hne) as [front [r ->]].
  rewrite fold_left_app. cbn [fold_left]. unfold foreach_body at 1.
  destruct (receiptToString_ends_LF r) as [body ->].
  exists (fold_left foreach_body front "" ++ body).
  now rewrite !append_assoc.
Qed.

(** C9: when the provider reports success with a non-empty list of
    receipts, the payload ends in two consecutive newlines: every block
    ends in a newline of its own and the loop adds one more after every
    block, the last included. *)
Theorem existing_purchases_trailing_blank_line
        (this : ReplyPtr) (reply : ExistingPurchasesReply.t) (w : World) :
  isError reply = false ->
  ExistingPurchasesReply.purchases reply <> [] ->
  (forall r, exists body, receiptToString r = body ++ LF) /\
  exists w' text,
    existingPurchasesResponse
      (with_sender (Some (this, IsExistingPurchasesReply reply)) w) = Some (tt, w') /\
    notifications (trace w') =
      (notifications (trace w) ++
       [existingPurchasesResponseSuccess (text ++ LF ++ LF)])%list.
Proof.
  intros Hok Hne. split; [exact receiptToString_ends_LF|].
  destruct (existing_success_notifies this reply w Hok) as [w' [Hrun Hsig]].
  destruct (foreach_ends_blank _ Hne) as [text Htext].
  exists w', text. split; [exact Hrun|].
  rewrite Hsig, <- Htext.
  destruct (ExistingPurchasesReply.purchases reply); [contradiction | reflexivity].
Qed.

Lemma existing_purchases_trailing_blank_line_witness :
  isError twoPurchases = false /\
  ExistingPurchasesReply.purchases twoPurchases <> [] /\
  (forall r, exists body, receiptToString r = body ++ LF) /\
  exists w' text,
    existingPurchasesResponse
      (with_sender (Some (7, IsExistingPurchasesReply twoPurchases)) purchasedWorld) =
      Some (tt, w') /\
    notifications (trace w') =
      (notifications (trace purchasedWorld) ++
       [existingPurchasesResponseSuccess (text ++ LF ++ LF)])%list.
Proof.
  split; [reflexivity|]. split; [discriminate|].
  apply (existing_purchases_trailing_blank_line 7 twoPurchases purchasedWorld);
    [reflexivity | discriminate].
Defined.

(** ** Errors and boolean flags are forwarded unchanged *)

(** C4: whichever of the six reply classes completes, if its error flag
    is set the slot for that class emits the one shared error signal
    [infoResponseError] with the reply's own error code and error text,
    and emits nothing else. *)
Theorem provider_error_forwarded (this : ReplyPtr) (obj : QObject) (w : World) :
  isError (reply_base obj) = true ->
  exists w',
    run_slot (reply_slot obj) (with_sender (Some (this, obj)) w) = Some (tt, w') /\
    notifications (trace w') =
      (notifications (trace w) ++
       [infoResponseError (errorCode (reply_base obj))
                          (errorText (reply_base obj))])%list.
Proof.
  intros Herr.
  destruct (slot_runs this obj w) as [dbg [sig [Hrun [_ Hsig]]]].
  eexists. split; [exact Hrun|].
  cbn [trace]. rewrite !notifications_app, notifications_debug, (Hsig Herr).
  reflexivity.
Qed.

Lemma provider_error_forwarded_witness :
  isError (reply_base (IsPriceReply (PriceReply.make failedReply ""))) = true /\
  exists w',
    run_slot (reply_slot (IsPriceReply (PriceReply.make failedReply "")))
      (with_sender (Some (4, IsPriceReply (PriceReply.make failedReply "")))
                   initial_world) = Some (tt, w') /\
    notifications (trace w') =
      (notifications (trace initial_world) ++
       [infoResponseError
          (errorCode (reply_base (IsPriceReply (PriceReply.make failedReply ""))))
          (errorText (reply_base (IsPriceReply (PriceReply.make failedReply ""))))])%list.
Proof.
  split; [reflexivity|].
  apply (provider_error_forwarded 4 (IsPriceReply (PriceReply.make failedReply ""))
           initial_world).
  reflexivity.
Defined.

(** C10: when a cancel-subscription or a subscription-status reply
    completes without error, the success signal carries the reply's
    boolean ([isCanceled], [isActive]) as it is, whichever value it has;
    taken at [false], a success signal with payload [false] is emitted. *)
Theorem boolean_flag_forwarded
        (this : ReplyPtr) (base : PaymentReply) (flag : bool) (w : World) :
  isError base = false ->
  (exists w',
     cancelSubscriptionResponse
       (with_sender
          (Some (this, IsCancelSubscriptionReply (CancelSubscriptionReply.make base flag)))
          w) = Some (tt, w') /\
     notifications (trace w') =
       (notifications (trace w) ++ [cancelSubscriptionResponseSuccess flag])%list) /\
  (exists w',
     subscriptionStatusResponse
       (with_sender
          (Some (this, IsSubscriptionStatusReply (SubscriptionStatusReply.make base flag)))
          w) = Some (tt, w') /\
     notifications (trace w') =
       (notifications (trace w) ++ [checkStatusResponseSuccess flag])%list).
Proof.
  destruct base as [e c t]. simpl. intros ->.
  split; run_cmd; (eexists; split; [reflexivity|]);
    cbn [trace]; rewrite !notifications_app; simpl;
    now rewrite ?app_nil_r.
Qed.

Lemma boolean_flag_forwarded_witness :
  isError okReply = false /\
  (exists w',
     cancelSubscriptionResponse
       (with_sender
          (Some (2, IsCancelSubscriptionReply (CancelSubscriptionReply.make okReply false)))
          initial_world) = Some (tt, w') /\
     notifications (trace w') =
       (notifications (trace initial_world) ++
        [cancelSubscriptionResponseSuccess false])%list) /\
  (exists w',
     subscriptionStatusResponse
       (with_sender
          (Some (2, IsSubscriptionStatusReply (SubscriptionStatusReply.make okReply false)))
          initial_world) = Some (tt, w') /\
     notifications (trace w') =
       (notifications (trace initial_world) ++ [checkStatusResponseSuccess false])%list).
Proof.
  split; [reflexivity|].
  apply (boolean_flag_forwarded 2 okReply false initial_world).
  reflexivity.
Defined.

(** ** The guard of the operations *)

Lemma invoke_issues (c : Call) (w : World) :
  (forall id, identifying c = Some id -> id <> "") ->
  exists dbg,
    invoke c w =
      Some (tt, mkWorld (S (next_reply w)) (w_sender w)
                  (trace w ++ [QDebug dbg; Issue (next_reply w) (request_of c);
                               Connect (next_reply w) (request_slot (request_of c))])).
Proof.
  intros Hid.
  destruct c as [id sku name metadata|refresh|id sku|id sku|id sku|id];
    try (destruct id as [|ch id]; [exfalso; now apply (Hid "") |]);
    run_cmd; eexists; simpl; now rewrite <- !app_assoc.
Qed.

Lemma invoke_cases (c : Call) (w : World) :
  invoke c w = Some (tt, w) \/
  exists dbg,
    invoke c w =
      Some (tt, mkWorld (S (next_reply w)) (w_sender w)
                  (trace w ++ [QDebug dbg; Issue (next_reply w) (request_of c);
                               Connect (next_reply w) (request_slot (request_of c))])).
Proof.
  destruct (identifying c) as [id|] eqn:Hid.
  - destruct id as [|ch id].
    + left. destruct c; simpl in Hid; inversion Hid; subst; reflexivity.
    + right. apply invoke_issues. intros id' Hid'. congruence.
  - right. apply invoke_issues. intros id' Hid'. congruence.
Qed.

(** C3: called with an empty identifying parameter, each of [purchase],
    [getPrice], [getSubscriptionTerms], [checkSubscriptionStatus] and
    [cancelSubscription] returns at once and leaves the world as it was:
    no request reaches the payment manager and no signal is emitted,
    whatever the other parameters are. *)
Theorem empty_identifier_is_no_op (sku name metadata : string) (w : World) :
  purchase "" sku name metadata w = Some (tt, w) /\
  getPrice "" sku w = Some (tt, w) /\
  getSubscriptionTerms "" sku w = Some (tt, w) /\
  checkSubscriptionStatus "" sku w = Some (tt, w) /\
  cancelSubscription "" w = Some (tt, w) /\
  forall c, identifying c = Some "" ->
    exists w', invoke c w = Some (tt, w') /\
      requests (trace w') = requests (trace w) /\
      notifications (trace w') = notifications (trace w).
Proof.
  repeat (split; [reflexivity|]).
  intros c Hid. exists w.
  destruct c; simpl in Hid; inversion Hid; subst; repeat split.
Qed.

(** C8: the guard looks at the identifying parameter only.  With a
    non-empty [id], [purchase] issues its request even when [sku], [name]
    and [metadata] are all empty; and every operation whose identifying
    parameter is that [id], or which has none, issues its request with
    all its arguments as given. *)
Theorem guard_inspects_identifier_only (id : string) (w : World) :
  id <> "" ->
  (exists w',
     purchase id "" "" "" w = Some (tt, w') /\
     requests (trace w') = (requests (trace w) ++ [requestPurchase id "" "" ""])%list) /\
  (forall c, identifying c = Some id \/ identifying c = None ->
     exists w',
       invoke c w = Some (tt, w') /\
       requests (trace w') = (requests (trace w) ++ [request_of c])%list).
Proof.
  intros Hne.
  assert (Hall : forall c, identifying c = Some id \/ identifying c = None ->
            exists w', invoke c w = Some (tt, w') /\
              requests (trace w') = (requests (trace w) ++ [request_of c])%list).
  { intros c Hc.
    destruct (invoke_issues c w) as [dbg Hrun].
    - intros id' Hid'. destruct Hc as [Hc|Hc]; congruence.
    - eexists. split; [exact Hrun|].
      cbn [trace]. now rewrite requests_app. }
  split; [|exact Hall].
  apply (Hall (call_purchase id "" "" "")). now left.
Qed.

Lemma guard_inspects_identifier_only_witness :
  "item1" <> "" /\
  (exists w',
     purchase "item1" "" "" "" initial_world = Some (tt, w') /\
     requests (trace w') =
       (requests (trace initial_world) ++ [requestPurchase "item1" "" "" ""])%list) /\
  (forall c, identifying c = Some "item1" \/ identifying c = None ->
     exists w',
       invoke c initial_world = Some (tt, w') /\
       requests (trace w') = (requests (trace initial_world) ++ [request_of c])%list).
Proof.
  split; [discriminate|].
  apply (guard_inspects_identifier_only "item1" initial_world).
  discriminate.
Defined.

(** ** Every issued request is connected to the slot of its kind *)

Lemma consistent_initial : consistent initial_world.
Proof.
  intros p. simpl. repeat split; auto.
Qed.

Lemma consistent_quiet (w : World) (s : option (ReplyPtr * QObject))
      (added : list Effect) :
  (forall p, connected p added = [] /\ issued p added = []) ->
  consistent w ->
  consistent (mkWorld (next_reply w) s (trace w ++ added)).
Proof.
  intros Hq Hw p.
  destruct (Hw p) as [Hc [Hl Hn]], (Hq p) as [Hqc Hqi].
  cbn [trace next_reply].
  rewrite connected_app, issued_app, Hqc, Hqi, !app_nil_r.
  auto.
Qed.

Lemma slot_effects_quiet (this p : ReplyPtr) (dbg : list (list DebugArg))
      (sig : Signal) :
  connected p (map QDebug dbg ++ [Emit sig; DeleteLater this]) = [] /\
  issued p (map QDebug dbg ++ [Emit sig; DeleteLater this]) = [].
Proof.
  now rewrite connected_app, issued_app, connected_debug, issued_debug.
Qed.

Lemma consistent_call (c : Call) (w w' : World) :
  consistent w -> invoke c w = Some (tt, w') -> consistent w'.
Proof.
  intros Hw Hrun.
  destruct (invoke_cases c w) as [Hsame | [dbg Hissue]].
  - rewrite Hsame in Hrun. now inversion Hrun; subst.
  - rewrite Hissue in Hrun. inversion Hrun; subst; clear Hrun.
    intros p. destruct (Hw p) as [Hc [Hl Hn]].
    cbn [trace next_reply].
    rewrite connected_app, issued_app. simpl.
    destruct (Nat.eqb_spec (next_reply w) p) as [Heq | Hneq].
    + subst p. rewrite Hc, (Hn (Nat.le_refl _)). simpl.
      repeat split; auto. intros Hle. lia.
    + rewrite !app_nil_r. repeat split; auto.
      intros Hle. apply Hn. lia.
Qed.

Lemma In_issued (p : ReplyPtr) (req : Request) (tr : list Effect) :
  In (Issue p req) tr -> In req (issued p tr).
Proof.
  induction tr as [|e tr IH]; simpl; [tauto|].
  intros [He | Hin].
  - subst e. rewrite Nat.eqb_refl. now left.
  - destruct e; auto.
    destruct (Nat.eqb reply p); [right|]; auto.
Qed.

Lemma consistent_connected (w : World) (p : ReplyPtr) (req : Request) :
  consistent w -> In (Issue p req) (trace w) ->
  connected p (trace w) = [request_slot req].
Proof.
  intros Hw Hin.
  destruct (Hw p) as [Hc [Hl _]].
  apply In_issued in Hin.
  rewrite Hc.
  destruct (issued p (trace w)) as [|r [|r' rest]]; simpl in *.
  - contradiction.
  - destruct Hin as [-> | []]. reflexivity.
  - lia.
Qed.

Lemma finished_runs (p : ReplyPtr) (obj : QObject) (w : World) :
  connected p (trace w) = [reply_slot obj] ->
  exists dbg sig,
    finished p obj w =
      Some (tt, mkWorld (next_reply w) (w_sender w)
                  (trace w ++ map QDebug dbg ++ [Emit sig; DeleteLater p])) /\
    channel sig =
      (if isError (reply_base obj) then None else Some (reply_slot obj)) /\
    (isError (reply_base obj) = true ->
     sig = infoResponseError (errorCode (reply_base obj))
                             (errorText (reply_base obj))).
Proof.
  intros Hconn.
  destruct (slot_runs p obj w) as [dbg [sig [Hrun Hsig]]].
  exists dbg, sig. split; [|exact Hsig].
  unfold finished. rewrite Hconn.
  cbn [activate]. unfold bind at 1. rewrite Hrun.
  reflexivity.
Qed.

Lemma consistent_step (w w' : World) : consistent w -> Step w w' -> consistent w'.
Proof.
  intros Hw Hstep.
  destruct Hstep as [c w w' Hrun | p req obj w w' Hin Hclass Hrun].
  - exact (consistent_call c w w' Hw Hrun).
  - pose proof (consistent_connected w p req Hw Hin) as Hconn.
    rewrite <- Hclass in Hconn.
    destruct (finished_runs p obj w Hconn) as [dbg [sig [Hfin _]]].
    rewrite Hfin in Hrun. inversion Hrun; subst; clear Hrun.
    apply consistent_quiet; [|exact Hw].
    intros q. apply slot_effects_quiet.
Qed.

Lemma reachable_consistent (w : World) : reachable w -> consistent w.
Proof.
  induction 1 as [|w w' _ IH Hstep].
  - exact consistent_initial.
  - exact (consistent_step w w' IH Hstep).
Qed.

(** C2: in every world the adapter can reach, when the provider completes
    a reply that was handed out for a request, with an object of the
    class that request returns, the delivery succeeds and adds to the
    trace some debug lines, then exactly one emitted signal, then the
    [deleteLater] of that reply, and nothing after it.  The signal is the
    shared error signal when the reply's error flag is set and the
    success signal of the request's kind when it is not. *)
Theorem completion_notifies_once_then_releases
        (w : World) (p : ReplyPtr) (req : Request) (obj : QObject) :
  reachable w ->
  In (Issue p req) (trace w) ->
  reply_slot obj = request_slot req ->
  exists w' dbg sig,
    finished p obj w = Some (tt, w') /\
    trace w' = (trace w ++ map QDebug dbg ++ [Emit sig; DeleteLater p])%list /\
    notifications (trace w') = (notifications (trace w) ++ [sig])%list /\
    released (trace w') = (released (trace w) ++ [p])%list /\
    channel sig =
      (if isError (reply_base obj) then None else Some (request_slot req)).
Proof.
  intros Hreach Hin Hclass.
  pose proof (consistent_connected w p req (reachable_consistent w Hreach) Hin)
    as Hconn.
  rewrite <- Hclass in Hconn |- *.
  destruct (finished_runs p obj w Hconn) as [dbg [sig [Hfin [Hch _]]]].
  eexists _, dbg, sig. split; [exact Hfin|].
  cbn [trace].
  rewrite !notifications_app, !released_app, notifications_debug, released_debug.
  repeat split; auto.
Qed.

Lemma purchasedWorld_reachable : reachable purchasedWorld.
Proof.
  apply (reach_step initial_world); [exact reach_initial|].
  apply (step_call (call_purchase "item1" "" "" "")). reflexivity.
Qed.

Lemma completion_notifies_once_then_releases_witness :
  reachable purchasedWorld /\
  In (Issue 0 (requestPurchase "item1" "" "" "")) (trace purchasedWorld) /\
  reply_slot (IsPurchaseReply (PurchaseReply.make failedReply sampleReceipt)) =
    request_slot (requestPurchase "item1" "" "" "") /\
  exists w' dbg sig,
    finished 0 (IsPurchaseReply (PurchaseReply.make failedReply sampleReceipt))
      purchasedWorld = Some (tt, w') /\
    trace w' = (trace purchasedWorld ++ map QDebug dbg ++ [Emit sig; DeleteLater 0])%list /\
    notifications (trace w') = (notifications (trace purchasedWorld) ++ [sig])%list /\
    released (trace w') = (released (trace purchasedWorld) ++ [0])%list /\
    channel sig =
      (if isError (reply_base (IsPurchaseReply (PurchaseReply.make failedReply sampleReceipt)))
       then None else Some (request_slot (requestPurchase "item1" "" "" ""))).
Proof.
  split; [exact purchasedWorld_reachable|].
  split; [simpl; auto|].
  split; [reflexivity|].
  apply (completion_notifies_once_then_releases purchasedWorld 0
           (requestPurchase "item1" "" "" "")
           (IsPurchaseReply (PurchaseReply.make failedReply sampleReceipt)));
    [exact purchasedWorld_reachable | simpl; auto | reflexivity].
Defined.

(** * Further properties of the adapter *)

(** ** What a slot emits is a function of the reply alone *)

Ltac read_log :=
  lazymatch goal with
  | |- context [((((_ ++ [QDebug ?d1]) ++ [QDebug ?d2]) ++ [Emit _]) ++ _)%list] =>
      exists [d1; d2]
  | |- context [(((_ ++ [QDebug ?d1]) ++ [Emit _]) ++ _)%list] =>
      exists [d1]
  | |- context [((_ ++ [Emit _]) ++ _)%list] =>
      exists (@nil (list DebugArg))
  end.

Lemma slot_emits_outcome (this : ReplyPtr) (obj : QObject) :
  exists dbg, forall w,
    run_slot (reply_slot obj) (with_sender (Some (this, obj)) w) =
      Some (tt, mkWorld (next_reply w) (Some (this, obj))
                  (trace w ++ map QDebug dbg ++ [Emit (outcome obj); DeleteLater this])).
Proof.
  destruct obj as [[[e c t] x]|[[e c t] x]|[[e c t] x]
                  |[[e c t] x1 x2 x3 x4]|[[e c t] x]|[[e c t] x]];
    destruct e;
    try match goal with x : list PurchaseReceipt.t |- _ => destruct x end;
    run_cmd; read_log; intros w; cbn [map app]; now rewrite <- !app_assoc.
Qed.

Lemma finished_outcome (p : ReplyPtr) (obj : QObject) :
  exists dbg, forall w,
    connected p (trace w) = [reply_slot obj] ->
    finished p obj w =
      Some (tt, mkWorld (next_reply w) (w_sender w)
                  (trace w ++ map QDebug dbg ++ [Emit (outcome obj); DeleteLater p])).
Proof.
  destruct (slot_emits_outcome p obj) as [dbg Hrun].
  exists dbg. intros w Hconn.
  unfold finished. rewrite Hconn.
  cbn [activate]. unfold bind at 1. now rewrite Hrun.
Qed.

Lemma fresh_reply_unused (w : World) :
  consistent w ->
  issued (next_reply w) (trace w) = [] /\ connected (next_reply w) (trace w) = [].
Proof.
  intros Hw. destruct (Hw (next_reply w)) as [Hc [_ Hn]].
  rewrite Hc, (Hn (Nat.le_refl _)). now split.
Qed.

Lemma round_trip_run (w : World) (c : Call) (obj : QObject) :
  reachable w ->
  (forall id, identifying c = Some id -> id <> "") ->
  reply_slot obj = request_slot (request_of c) ->
  exists dbg1 dbg2,
    (invoke c ;; finished (next_reply w) obj) w =
      Some (tt, mkWorld (S (next_reply w)) (w_sender w)
                  ((trace w ++
                    [QDebug dbg1; Issue (next_reply w) (request_of c);
                     Connect (next_reply w) (request_slot (request_of c))]) ++
                   map QDebug dbg2 ++
                   [Emit (outcome obj); DeleteLater (next_reply w)])).
Proof.
  intros Hreach Hid Hclass.
  destruct (invoke_issues c w Hid) as [dbg1 Hcall].
  destruct (finished_outcome (next_reply w) obj) as [dbg2 Hfin].
  exists dbg1, dbg2.
  unfold bind. rewrite Hcall, Hfin; [reflexivity|].
  cbn [trace]. rewrite connected_app.
  destruct (fresh_reply_unused w (reachable_consistent w Hreach)) as [_ ->].
  simpl. now rewrite Nat.eqb_refl, Hclass.
Qed.

Lemma requests_debug (dbg : list (list DebugArg)) :
  requests (map QDebug dbg) = [].
Proof.
  induction dbg as [|d dbg IH]; simpl; [reflexivity | exact IH].
Qed.

(** ** A request followed by its completion *)

(** X1: in a reachable world, a call that passes its guard, followed by
    the completion of the reply it was given, succeeds and adds exactly
    one request (the call's, arguments as given), exactly one signal (the
    one [outcome] reads off the reply) and exactly one release (of that
    reply); the next address moves on by one. *)
Theorem request_round_trip (w : World) (c : Call) (obj : QObject) :
  reachable w ->
  (forall id, identifying c = Some id -> id <> "") ->
  reply_slot obj = request_slot (request_of c) ->
  exists w',
    (invoke c ;; finished (next_reply w) obj) w = Some (tt, w') /\
    requests (trace w') = (requests (trace w) ++ [request_of c])%list /\
    notifications (trace w') = (notifications (trace w) ++ [outcome obj])%list /\
    released (trace w') = (released (trace w) ++ [next_reply w])%list /\
    next_reply w' = S (next_reply w).
Proof.
  intros Hreach Hid Hclass.
  destruct (round_trip_run w c obj Hreach Hid Hclass) as [dbg1 [dbg2 Hrun]].
  eexists. split; [exact Hrun|].
  cbn [trace next_reply].
  rewrite !requests_app, !notifications_app, !released_app,
    requests_debug, notifications_debug, released_debug.
  simpl. rewrite !app_nil_r. repeat split.
Qed.

Lemma request_round_trip_witness :
  reachable purchasedWorld /\
  (forall id, identifying (call_getExisting true) = Some id -> id <> "") /\
  reply_slot (IsExistingPurchasesReply twoPurchases) =
    request_slot (request_of (call_getExisting true)) /\
  exists w',
    (invoke (call_getExisting true) ;;
     finished (next_reply purchasedWorld) (IsExistingPurchasesReply twoPurchases))
      purchasedWorld = Some (tt, w') /\
    requests (trace w') =
      (requests (trace purchasedWorld) ++ [request_of (call_getExisting true)])%list /\
    notifications (trace w') =
      (notifications (trace purchasedWorld) ++
       [outcome (IsExistingPurchasesReply twoPurchases)])%list /\
    released (trace w') =
      (released (trace purchasedWorld) ++ [next_reply purchasedWorld])%list /\
    next_reply w' = S (next_reply purchasedWorld).
Proof.
  split; [exact purchasedWorld_reachable|].
  split; [intros id H; discriminate H|].
  split; [reflexivity|].
  apply (request_round_trip purchasedWorld (call_getExisting true)
           (IsExistingPurchasesReply twoPurchases));
    [exact purchasedWorld_reachable | intros id H; discriminate H | reflexivity].
Defined.

(** X2: in a reachable world, [getPrice] with a non-empty id followed by
    a price reply without error emits exactly [priceResponseSuccess] with
    the reply's price text, unchanged; the id and sku of the request do
    not enter the payload. *)
Theorem price_round_trip
        (w : World) (id sku : string) (base : PaymentReply) (price : string) :
  reachable w ->
  id <> "" ->
  isError base = false ->
  exists w',
    (getPrice id sku ;;
     finished (next_reply w) (IsPriceReply (PriceReply.make base price))) w =
      Some (tt, w') /\
    notifications (trace w') =
      (notifications (trace w) ++ [priceResponseSuccess price])%list.
Proof.
  intros Hreach Hid Hok.
  destruct (round_trip_run w (call_getPrice id sku)
              (IsPriceReply (PriceReply.make base price)) Hreach)
    as [dbg1 [dbg2 Hrun]]; [intros id' [= <-]; exact Hid | reflexivity |].
  eexists. split; [exact Hrun|].
  cbn [trace]. rewrite !notifications_app, notifications_debug.
  unfold outcome. simpl. rewrite Hok. simpl. now rewrite app_nil_r.
Qed.

Lemma price_round_trip_witness :
  reachable initial_world /\
  "item1" <> "" /\
  isError okReply = false /\
  exists w',
    (getPrice "item1" "sku1" ;;
     finished (next_reply initial_world) (IsPriceReply (PriceReply.make okReply "$0.99")))
      initial_world = Some (tt, w') /\
    notifications (trace w') =
      (notifications (trace initial_world) ++ [priceResponseSuccess "$0.99"])%list.
Proof.
  split; [exact reach_initial|]. split; [discriminate|]. split; [reflexivity|].
  apply (price_round_trip initial_world "item1" "sku1" okReply "$0.99");
    [exact reach_initial | discriminate | reflexivity].
Defined.

(** X3: in a reachable world, [getSubscriptionTerms] with a non-empty id
    followed by a terms reply without error emits exactly
    [subscriptionTermsResponseSuccess] with the reply's price, initial
    period, renewal price and renewal period, in that order and
    unchanged. *)
Theorem subscription_terms_round_trip
        (w : World) (id sku : string) (base : PaymentReply)
        (price initialPeriod renewalPrice renewalPeriod : string) :
  reachable w ->
  id <> "" ->
  isError base = false ->
  exists w',
    (getSubscriptionTerms id sku ;;
     finished (next_reply w)
       (IsSubscriptionTermsReply
          (SubscriptionTermsReply.make base price initialPeriod renewalPrice
             renewalPeriod))) w = Some (tt, w') /\
    notifications (trace w') =
      (notifications (trace w) ++
       [subscriptionTermsResponseSuccess price initialPeriod renewalPrice
          renewalPeriod])%list.
Proof.
  intros Hreach Hid Hok.
  destruct (round_trip_run w (call_getSubscriptionTerms id sku)
              (IsSubscriptionTermsReply
                 (SubscriptionTermsReply.make base price initialPeriod renewalPrice
                    renewalPeriod)) Hreach)
    as [dbg1 [dbg2 Hrun]]; [intros id' [= <-]; exact Hid | reflexivity |].
  eexists. split; [exact Hrun|].
  cbn [trace]. rewrite !notifications_app, notifications_debug.
  unfold outcome. simpl. rewrite Hok. simpl. now rewrite app_nil_r.
Qed.

Lemma subscription_terms_round_trip_witness :
  reachable purchasedWorld /\
  "sub1" <> "" /\
  isError okReply = false /\
  exists w',
    (getSubscriptionTerms "sub1" "" ;;
     finished (next_reply purchasedWorld)
       (IsSubscriptionTermsReply
          (SubscriptionTermsReply.make okReply "$2.99" "30" "$1.99" "365")))
      purchasedWorld = Some (tt, w') /\
    notifications (trace w') =
      (notifications (trace purchasedWorld) ++
       [subscriptionTermsResponseSuccess "$2.99" "30" "$1.99" "365"])%list.
Proof.
  split; [exact purchasedWorld_reachable|]. split; [discriminate|].
  split; [reflexivity|].
  apply (subscription_terms_round_trip purchasedWorld "sub1" "" okReply
           "$2.99" "30" "$1.99" "365");
    [exact purchasedWorld_reachable | discriminate | reflexivity].
Defined.

(** X4: in a reachable world, [purchase] with a non-empty id followed by
    a purchase reply without error emits exactly
    [purchaseResponseSuccess] with the block [receiptToString] makes of
    the reply's receipt, whatever id, sku, name and metadata the request
    carried. *)
Theorem purchase_round_trip
        (w : World) (id sku name metadata : string) (base : PaymentReply)
        (receipt : PurchaseReceipt.t) :
  reachable w ->
  id <> "" ->
  isError base = false ->
  exists w',
    (purchase id sku name metadata ;;
     finished (next_reply w) (IsPurchaseReply (PurchaseReply.make base receipt))) w =
      Some (tt, w') /\
    notifications (trace w') =
      (notifications (trace w) ++
       [purchaseResponseSuccess (receiptToString receipt)])%list.
Proof.
  intros Hreach Hid Hok.
  destruct (round_trip_run w (call_purchase id sku name metadata)
              (IsPurchaseReply (PurchaseReply.make base receipt)) Hreach)
    as [dbg1 [dbg2 Hrun]]; [intros id' [= <-]; exact Hid | reflexivity |].
  eexists. split; [exact Hrun|].
  cbn [trace]. rewrite !notifications_app, notifications_debug.
  unfold outcome. simpl. rewrite Hok. simpl. now rewrite app_nil_r.
Qed.

Lemma purchase_round_trip_witness :
  reachable initial_world /\
  "item1" <> "" /\
  isError okReply = false /\
  exists w',
    (purchase "item1" "sku1" "Sword" "{}" ;;
     finished (next_reply initial_world)
       (IsPurchaseReply (PurchaseReply.make okReply sampleReceipt)))
      initial_world = Some (tt, w') /\
    notifications (trace w') =
      (notifications (trace initial_world) ++
       [purchaseResponseSuccess (receiptToString sampleReceipt)])%list.
Proof.
  split; [exact reach_initial|]. split; [discriminate|]. split; [reflexivity|].
  apply (purchase_round_trip initial_world "item1" "sku1" "Sword" "{}" okReply
           sampleReceipt);
    [exact reach_initial | discriminate | reflexivity].
Defined.

(** ** What the operations never do *)

(** X5: none of the six operations ever fails, emits a signal, releases
    a reply or changes the sender, in any world and for any arguments;
    each either leaves the list of requests as it was or adds its own
    request, once, at the end. *)
Theorem operations_only_issue (c : Call) (w : World) :
  exists w',
    invoke c w = Some (tt, w') /\
    notifications (trace w') = notifications (trace w) /\
    released (trace w') = released (trace w) /\
    w_sender w' = w_sender w /\
    (requests (trace w') = requests (trace w) \/
     requests (trace w') = (requests (trace w) ++ [request_of c])%list).
Proof.
  destruct (invoke_cases c w) as [Hsame | [dbg Hissue]].
  - exists w. repeat split; auto.
  - eexists. split; [exact Hissue|].
    cbn [trace w_sender].
    rewrite notifications_app, released_app, requests_app. simpl.
    rewrite !app_nil_r. repeat split; auto.
Qed.

(** ** Slots outside a matching delivery *)



Lemma sender_restored (w w' : World) : Step w w' -> w_sender w' = w_sender w.
Proof.
  intros [c w0 w0' Hrun | p req obj w0 w0' _ _ Hrun].
  - destruct (invoke_cases c w0) as [Hsame | [dbg Hissue]].
    + rewrite Hsame in Hrun. now inversion Hrun.
    + rewrite Hissue in Hrun. now inversion Hrun.
  - unfold finished in Hrun.
    destruct (activate _ _) as [[u w1]|]; [|discriminate Hrun].
    now inversion Hrun.
Qed.

Lemma reachable_sender (w : World) : reachable w -> w_sender w = None.
Proof.
  induction 1 as [|w w' _ IH Hstep]; [reflexivity|].
  now rewrite (sender_restored w w' Hstep).
Qed.

(** X7: between deliveries no object is the sender, in every reachable
    world; a slot called there, not through [finished()], finds a null
    reply and fails its assertion. *)
Theorem slot_needs_sender (w : World) (slot : Slot) :
  reachable w ->
  w_sender w = None /\ run_slot slot w = None.
Proof.
  intros Hreach.
  pose proof (reachable_sender w Hreach) as Hs.
  split; [exact Hs|].
  destruct w as [n s tr]. simpl in Hs. subst s.
  destruct slot; reflexivity.
Qed.

Lemma slot_needs_sender_witness :
  reachable purchasedWorld /\
  w_sender purchasedWorld = None /\
  run_slot SLOT_cancelSubscriptionResponse purchasedWorld = None.
Proof.
  split; [exact purchasedWorld_reachable|].
  apply (slot_needs_sender purchasedWorld SLOT_cancelSubscriptionResponse).
  exact purchasedWorld_reachable.
Defined.

(** ** Replies, connections and releases in reachable worlds *)

Lemma issued_In (p : ReplyPtr) (req : Request) (tr : list Effect) :
  In req (issued p tr) -> In (Issue p req) tr.
Proof.
  induction tr as [|e tr IH]; simpl; [tauto|].
  destruct e; auto.
  destruct (Nat.eqb_spec reply p) as [-> | Hneq].
  - intros [-> | Hin]; [now left | right; auto].
  - auto.
Qed.

(** X8: in every reachable world, a reply handed out for a request lies
    below the next address, was handed out for that request only, and
    has exactly one slot connected to its [finished()] signal: the slot
    of the operation that issued the request. *)
Theorem issued_reply_connected_once (w : World) (p : ReplyPtr) (req : Request) :
  reachable w ->
  In (Issue p req) (trace w) ->
  p < next_reply w /\
  issued p (trace w) = [req] /\
  connected p (trace w) = [request_slot req].
Proof.
  intros Hreach Hin.
  pose proof (reachable_consistent w Hreach) as Hw.
  destruct (Hw p) as [Hc [Hl Hn]].
  pose proof (In_issued p req (trace w) Hin) as Hreq.
  assert (Hone : issued p (trace w) = [req]).
  { destruct (issued p (trace w)) as [|r [|r' rest]]; simpl in *.
    - contradiction.
    - destruct Hreq as [-> | []]. reflexivity.
    - lia. }
  split; [|split; [exact Hone | now rewrite Hc, Hone]].
  destruct (Nat.lt_ge_cases p (next_reply w)) as [Hlt | Hge]; [exact Hlt|].
  rewrite (Hn Hge) in Hone. discriminate Hone.
Qed.

Lemma issued_reply_connected_once_witness :
  reachable purchasedWorld /\
  In (Issue 0 (requestPurchase "item1" "" "" "")) (trace purchasedWorld) /\
  0 < next_reply purchasedWorld /\
  issued 0 (trace purchasedWorld) = [requestPurchase "item1" "" "" ""] /\
  connected 0 (trace purchasedWorld) =
    [request_slot (requestPurchase "item1" "" "" "")].
Proof.
  split; [exact purchasedWorld_reachable|].
  split; [simpl; auto|].
  apply (issued_reply_connected_once purchasedWorld 0
           (requestPurchase "item1" "" "" ""));
    [exact purchasedWorld_reachable | simpl; auto].
Defined.




(** X10: in a reachable world, the completion of a reply the payment
    manager never handed out finds no slot connected and changes
    nothing: no signal, no release, no failure. *)
Theorem unknown_reply_ignored (w : World) (p : ReplyPtr) (obj : QObject) :
  reachable w ->
  (forall req, ~ In (Issue p req) (trace w)) ->
  finished p obj w = Some (tt, w).
Proof.
  intros Hreach Hnone.
  destruct (reachable_consistent w Hreach p) as [Hc _].
  assert (Hiss : issued p (trace w) = []).
  { destruct (issued p (trace w)) as [|r rest] eqn:E; [reflexivity|].
    exfalso. apply (Hnone r). apply issued_In. rewrite E. now left. }
  unfold finished. rewrite Hc, Hiss. simpl.
  destruct w; reflexivity.
Qed.

Lemma unknown_reply_ignored_witness :
  reachable purchasedWorld /\
  (forall req, ~ In (Issue 5 req) (trace purchasedWorld)) /\
  finished 5 (IsPriceReply (PriceReply.make okReply "$0.99")) purchasedWorld =
    Some (tt, purchasedWorld).
Proof.
  assert (H : forall req, ~ In (Issue 5 req) (trace purchasedWorld)).
  { intros req [E | [E | [E | []]]]; discriminate E. }
  split; [exact purchasedWorld_reachable|].
  split; [exact H|].
  apply (unknown_reply_ignored purchasedWorld 5
           (IsPriceReply (PriceReply.make okReply "$0.99")));
    [exact purchasedWorld_reachable | exact H].
Defined.

(** ** Requests in flight together *)

Lemma finished_twice (w : World) (p q : ReplyPtr) (objp objq : QObject) :
  connected p (trace w) = [reply_slot objp] ->
  connected q (trace w) = [reply_slot objq] ->
  exists dbgp dbgq,
    (finished p objp ;; finished q objq) w =
      Some (tt, mkWorld (next_reply w) (w_sender w)
                  ((trace w ++
                    map QDebug dbgp ++ [Emit (outcome objp); DeleteLater p]) ++
                   map QDebug dbgq ++ [Emit (outcome objq); DeleteLater q])).
Proof.
  intros Hp Hq.
  destruct (finished_outcome p objp) as [dbgp Hfp].
  destruct (finished_outcome q objq) as [dbgq Hfq].
  exists dbgp, dbgq.
  unfold bind. rewrite (Hfp w Hp), Hfq; [reflexivity|].
  cbn [trace]. rewrite connected_app.
  destruct (slot_effects_quiet p q dbgp (outcome objp)) as [-> _].
  now rewrite app_nil_r.
Qed.

(** X11: in a reachable world, two replies in flight complete
    independently: delivered in either order, both deliveries succeed,
    each emits the signal its own reply determines, the two signals
    appear in delivery order, and the requests, the next address and
    every connection are the same after both orders. *)
Theorem completions_are_independent
        (w : World) (p q : ReplyPtr) (reqp reqq : Request) (objp objq : QObject) :
  reachable w ->
  In (Issue p reqp) (trace w) ->
  In (Issue q reqq) (trace w) ->
  reply_slot objp = request_slot reqp ->
  reply_slot objq = request_slot reqq ->
  exists w1 w2,
    (finished p objp ;; finished q objq) w = Some (tt, w1) /\
    (finished q objq ;; finished p objp) w = Some (tt, w2) /\
    notifications (trace w1) =
      (notifications (trace w) ++ [outcome objp; outcome objq])%list /\
    notifications (trace w2) =
      (notifications (trace w) ++ [outcome objq; outcome objp])%list /\
    requests (trace w1) = requests (trace w) /\
    requests (trace w2) = requests (trace w) /\
    next_reply w1 = next_reply w2 /\
    (forall r, connected r (trace w1) = connected r (trace w2)).
Proof.
  intros Hreach Hinp Hinq Hcp Hcq.
  pose proof (reachable_consistent w Hreach) as Hw.
  pose proof (consistent_connected w p reqp Hw Hinp) as Hp.
  pose proof (consistent_connected w q reqq Hw Hinq) as Hq.
  rewrite <- Hcp in Hp. rewrite <- Hcq in Hq.
  destruct (finished_twice w p q objp objq Hp Hq) as [dp [dq H1]].
  destruct (finished_twice w q p objq objp Hq Hp) as [dq' [dp' H2]].
  eexists _, _. split; [exact H1|]. split; [exact H2|].
  cbn [trace next_reply].
  split; [rewrite !notifications_app, !notifications_debug; simpl;
          now rewrite <- app_assoc|].
  split; [rewrite !notifications_app, !notifications_debug; simpl;
          now rewrite <- app_assoc|].
  split; [rewrite !requests_app, !requests_debug; simpl;
          now rewrite !app_nil_r|].
  split; [rewrite !requests_app, !requests_debug; simpl;
          now rewrite !app_nil_r|].
  split; [reflexivity|].
  intros r. rewrite !connected_app, !connected_debug. reflexivity.
Qed.

Lemma twoInFlight_reachable : reachable twoInFlight.
Proof.
  apply (reach_step purchasedWorld); [exact purchasedWorld_reachable|].
  apply (step_call (call_getPrice "item1" "sku1")). reflexivity.
Qed.

Lemma completions_are_independent_witness :
  reachable twoInFlight /\
  In (Issue 0 (requestPurchase "item1" "" "" "")) (trace twoInFlight) /\
  In (Issue 1 (requestPrice "item1" "sku1")) (trace twoInFlight) /\
  reply_slot (IsPurchaseReply (PurchaseReply.make failedReply sampleReceipt)) =
    request_slot (requestPurchase "item1" "" "" "") /\
  reply_slot (IsPriceReply (PriceReply.make okReply "$0.99")) =
    request_slot (requestPrice "item1" "sku1") /\
  exists w1 w2,
    (finished 0 (IsPurchaseReply (PurchaseReply.make failedReply sampleReceipt)) ;;
     finished 1 (IsPriceReply (PriceReply.make okReply "$0.99"))) twoInFlight =
      Some (tt, w1) /\
    (finished 1 (IsPriceReply (PriceReply.make okReply "$0.99")) ;;
     finished 0 (IsPurchaseReply (PurchaseReply.make failedReply sampleReceipt)))
      twoInFlight = Some (tt, w2) /\
    notifications (trace w1) =
      (notifications (trace twoInFlight) ++
       [outcome (IsPurchaseReply (PurchaseReply.make failedReply sampleReceipt));
        outcome (IsPriceReply (PriceReply.make okReply "$0.99"))])%list /\
    notifications (trace w2) =
      (notifications (trace twoInFlight) ++
       [outcome (IsPriceReply (PriceReply.make okReply "$0.99"));
        outcome (IsPurchaseReply (PurchaseReply.make failedReply sampleReceipt))])%list /\
    requests (trace w1) = requests (trace twoInFlight) /\
    requests (trace w2) = requests (trace twoInFlight) /\
    next_reply w1 = next_reply w2 /\
    (forall r, connected r (trace w1) = connected r (trace w2)).
Proof.
  split; [exact twoInFlight_reachable|].
  split; [simpl; auto|].
  split; [simpl; auto 10|].
  split; [reflexivity|]. split; [reflexivity|].
  apply (completions_are_independent twoInFlight 0 1
           (requestPurchase "item1" "" "" "") (requestPrice "item1" "sku1")
           (IsPurchaseReply (PurchaseReply.make failedReply sampleReceipt))
           (IsPriceReply (PriceReply.make okReply "$0.99")));
    [exact twoInFlight_reachable | simpl; auto | simpl; auto 10
     | reflexivity | reflexivity].
Defined.

(** X12: in a reachable world, two calls that pass their guards are
    never merged, even when they are the same call: each gets a reply
    object of its own, at consecutive addresses, each connected to the
    slot of its own kind, and both requests reach the payment manager in
    call order. *)
Theorem calls_are_not_coalesced (w : World) (c1 c2 : Call) :
  reachable w ->
  (forall id, identifying c1 = Some id -> id <> "") ->
  (forall id, identifying c2 = Some id -> id <> "") ->
  exists w',
    (invoke c1 ;; invoke c2) w = Some (tt, w') /\
    requests (trace w') = (requests (trace w) ++ [request_of c1; request_of c2])%list /\
    issued (next_reply w) (trace w') = [request_of c1] /\
    issued (S (next_reply w)) (trace w') = [request_of c2] /\
    connected (next_reply w) (trace w') = [request_slot (request_of c1)] /\
    connected (S (next_reply w)) (trace w') = [request_slot (request_of c2)] /\
    next_reply w' = S (S (next_reply w)).
Proof.
  intros Hreach H1 H2.
  pose proof (reachable_consistent w Hreach) as Hw.
  destruct (invoke_issues c1 w H1) as [d1 Hc1].
  destruct (Hw (next_reply w)) as [Hcn [_ Hn]].
  destruct (Hw (S (next_reply w))) as [Hcs [_ Hs]].
  pose proof (Hn (Nat.le_refl _)) as Hin. rewrite Hin in Hcn.
  pose proof (Hs (Nat.le_succ_diag_r _)) as His. rewrite His in Hcs.
  match type of Hc1 with _ = Some (tt, ?w1) =>
    destruct (invoke_issues c2 w1 H2) as [d2 Hc2] end.
  cbn [trace next_reply w_sender] in Hc2.
  eexists. split; [unfold bind; rewrite Hc1; exact Hc2|].
  cbn [trace next_reply].
  assert (E1 : Nat.eqb (next_reply w) (S (next_reply w)) = false)
    by (apply Nat.eqb_neq; lia).
  assert (E2 : Nat.eqb (S (next_reply w)) (next_reply w) = false)
    by (apply Nat.eqb_neq; lia).
  rewrite !requests_app, !issued_app, !connected_app, Hin, His, Hcn, Hcs.
  cbn [requests issued connected map app].
  rewrite !Nat.eqb_refl, E1, E2.
  repeat split. now rewrite <- app_assoc.
Qed.

Lemma calls_are_not_coalesced_witness :
  reachable purchasedWorld /\
  (forall id, identifying (call_getPrice "item1" "sku1") = Some id -> id <> "") /\
  (forall id, identifying (call_getPrice "item1" "sku1") = Some id -> id <> "") /\
  exists w',
    (invoke (call_getPrice "item1" "sku1") ;; invoke (call_getPrice "item1" "sku1"))
      purchasedWorld = Some (tt, w') /\
    requests (trace w') =
      (requests (trace purchasedWorld) ++
       [request_of (call_getPrice "item1" "sku1");
        request_of (call_getPrice "item1" "sku1")])%list /\
    issued (next_reply purchasedWorld) (trace w') =
      [request_of (call_getPrice "item1" "sku1")] /\
    issued (S (next_reply purchasedWorld)) (trace w') =
      [request_of (call_getPrice "item1" "sku1")] /\
    connected (next_reply purchasedWorld) (trace w') =
      [request_slot (request_of (call_getPrice "item1" "sku1"))] /\
    connected (S (next_reply purchasedWorld)) (trace w') =
      [request_slot (request_of (call_getPrice "item1" "sku1"))] /\
    next_reply w' = S (S (next_reply purchasedWorld)).
Proof.
  assert (H : forall id, identifying (call_getPrice "item1" "sku1") = Some id ->
                         id <> "").
  { intros id [= <-]. discriminate. }
  split; [exact purchasedWorld_reachable|].
  split; [exact H|]. split; [exact H|].
  apply (calls_are_not_coalesced purchasedWorld (call_getPrice "item1" "sku1")
           (call_getPrice "item1" "sku1"));
    [exact purchasedWorld_reachable | exact H | exact H].
Defined.

(** ** The shape of a receipt block *)

Lemma count_LF_app (a b : string) : count_LF (a ++ b) = count_LF a + count_LF b.
Proof.
  induction a as [|ch a IH]; simpl; [reflexivity|].
  rewrite IH. lia.
Qed.

Lemma count_LF_digits (d : Decimal.uint) :
  count_LF (NilEmpty.string_of_uint d) = 0.
Proof.
  induction d; simpl; auto.
Qed.

Lemma count_LF_number (n : Z) : count_LF (number n) = 0.
Proof.
  unfold number.
  destruct (Z.to_int n) as [d|d]; simpl;
    destruct d; simpl; auto using count_LF_digits.
Qed.

(** X13: a receipt block holds exactly seven newlines of its own, one at
    the end of each of its seven lines; every further newline comes from
    inside a text field (the dates' texts, the ids, the sku, the license
    key, the metadata).  The two numbers and the subscription flag never
    add one. *)
Theorem receipt_block_newlines (r : PurchaseReceipt.t) :
  count_LF (receiptToString r) =
    7 + count_LF (QDateTime.toString (PurchaseReceipt.date r))
      + count_LF (PurchaseReceipt.digitalGoodId r)
      + count_LF (PurchaseReceipt.digitalGoodSku r)
      + count_LF (PurchaseReceipt.purchaseId r)
      + count_LF (PurchaseReceipt.licenseKey r)
      + count_LF (PurchaseReceipt.purchaseMetadata r)
      + count_LF (date_text (PurchaseReceipt.startDate r))
      + count_LF (date_text (PurchaseReceipt.endDate r)).
Proof.
  unfold receiptToString, static_cast_int.
  fold (date_text (PurchaseReceipt.startDate r)).
  fold (date_text (PurchaseReceipt.endDate r)).
  rewrite !count_LF_app, !count_LF_number.
  destruct (PurchaseReceipt.isSubscription r); simpl; lia.
Qed.

(** X14: the block does not tell where the digital-good id ends and the
    sku begins: moving a slash-separated part from the end of the id to
    the front of the sku leaves the block unchanged, so two different
    receipts can render the same. *)
Theorem receipt_block_id_sku_ambiguous
        (date : QDateTime.t) (a b c purchaseId licenseKey metadata : string)
        (state : Z) (isSubscription : bool) (startDate endDate : QDateTime.t)
        (initialPeriod : Z) :
  receiptToString
    (PurchaseReceipt.make date (a ++ "/" ++ b) c purchaseId licenseKey metadata
       state isSubscription startDate endDate initialPeriod) =
  receiptToString
    (PurchaseReceipt.make date a (b ++ "/" ++ c) purchaseId licenseKey metadata
       state isSubscription startDate endDate initialPeriod).
Proof.
  unfold receiptToString. cbn [PurchaseReceipt.digitalGoodId
    PurchaseReceipt.digitalGoodSku PurchaseReceipt.date PurchaseReceipt.purchaseId
    PurchaseReceipt.licenseKey PurchaseReceipt.purchaseMetadata PurchaseReceipt.state
    PurchaseReceipt.isSubscription PurchaseReceipt.startDate PurchaseReceipt.endDate
    PurchaseReceipt.initialPeriod].
  f_equal. f_equal. f_equal.
  now rewrite !append_assoc.
Qed.

(** ** The listing of existing purchases *)

Lemma slot_notifies (this : ReplyPtr) (obj : QObject) (w : World) :
  exists w',
    run_slot (reply_slot obj) (with_sender (Some (this, obj)) w) = Some (tt, w') /\
    notifications (trace w') = (notifications (trace w) ++ [outcome obj])%list.
Proof.
  destruct (slot_emits_outcome this obj) as [dbg Hrun].
  eexists. split; [apply Hrun|].
  cbn [trace]. now rewrite !notifications_app, notifications_debug.
Qed.

Lemma foreach_app (rs1 rs2 : list PurchaseReceipt.t) :
  fold_left foreach_body (rs1 ++ rs2) "" =
  fold_left foreach_body rs1 "" ++ fold_left foreach_body rs2 "".
Proof.
  rewrite fold_left_app. apply foreach_acc.
Qed.

(** X15: the listing of one receipt is the block a purchase of that
    receipt announces, followed by one more newline: on replies without
    error, [existingPurchasesResponse] on the one-receipt list emits
    [receiptToString r] with a newline appended where [purchaseResponse]
    emits [receiptToString r]. *)
Theorem single_listing_is_purchase_block_and_newline
        (this : ReplyPtr) (base : PaymentReply) (r : PurchaseReceipt.t) (w : World) :
  isError base = false ->
  exists w1 w2,
    purchaseResponse
      (with_sender (Some (this, IsPurchaseReply (PurchaseReply.make base r))) w) =
      Some (tt, w1) /\
    notifications (trace w1) =
      (notifications (trace w) ++ [purchaseResponseSuccess (receiptToString r)])%list /\
    existingPurchasesResponse
      (with_sender
         (Some (this, IsExistingPurchasesReply (ExistingPurchasesReply.make base [r])))
         w) = Some (tt, w2) /\
    notifications (trace w2) =
      (notifications (trace w) ++
       [existingPurchasesResponseSuccess (receiptToString r ++ LF)])%list.
Proof.
  intros Hok.
  destruct (slot_notifies this (IsPurchaseReply (PurchaseReply.make base r)) w)
    as [w1 [Hr1 Hn1]].
  destruct (slot_notifies this
              (IsExistingPurchasesReply (ExistingPurchasesReply.make base [r])) w)
    as [w2 [Hr2 Hn2]].
  exists w1, w2.
  unfold outcome in Hn1, Hn2. simpl in Hn1, Hn2. rewrite Hok in Hn1, Hn2.
  repeat split; assumption.
Qed.

Lemma single_listing_is_purchase_block_and_newline_witness :
  isError okReply = false /\
  exists w1 w2,
    purchaseResponse
      (with_sender (Some (0, IsPurchaseReply (PurchaseReply.make okReply sampleReceipt)))
         purchasedWorld) = Some (tt, w1) /\
    notifications (trace w1) =
      (notifications (trace purchasedWorld) ++
       [purchaseResponseSuccess (receiptToString sampleReceipt)])%list /\
    existingPurchasesResponse
      (with_sender
         (Some (0, IsExistingPurchasesReply
                     (ExistingPurchasesReply.make okReply [sampleReceipt])))
         purchasedWorld) = Some (tt, w2) /\
    notifications (trace w2) =
      (notifications (trace purchasedWorld) ++
       [existingPurchasesResponseSuccess (receiptToString sampleReceipt ++ LF)])%list.
Proof.
  split; [reflexivity|].
  apply (single_listing_is_purchase_block_and_newline 0 okReply sampleReceipt
           purchasedWorld).
  reflexivity.
Defined.

(** X16: the listing of two non-empty lists of receipts put one after
    the other is the listing of the first followed by the listing of the
    second: no separator is added or dropped at the seam. *)
Theorem listing_of_appended_lists
        (this : ReplyPtr) (base : PaymentReply)
        (rs1 rs2 : list PurchaseReceipt.t) (w : World) :
  isError base = false ->
  rs1 <> [] ->
  rs2 <> [] ->
  exists text1 text2 w1 w2 w12,
    existingPurchasesResponse
      (with_sender
         (Some (this, IsExistingPurchasesReply (ExistingPurchasesReply.make base rs1)))
         w) = Some (tt, w1) /\
    notifications (trace w1) =
      (notifications (trace w) ++ [existingPurchasesResponseSuccess text1])%list /\
    existingPurchasesResponse
      (with_sender
         (Some (this, IsExistingPurchasesReply (ExistingPurchasesReply.make base rs2)))
         w) = Some (tt, w2) /\
    notifications (trace w2) =
      (notifications (trace w) ++ [existingPurchasesResponseSuccess text2])%list /\
    existingPurchasesResponse
      (with_sender
         (Some (this, IsExistingPurchasesReply
                        (ExistingPurchasesReply.make base (rs1 ++ rs2))))
         w) = Some (tt, w12) /\
    notifications (trace w12) =
      (notifications (trace w) ++
       [existingPurchasesResponseSuccess (text1 ++ text2)])%list.
Proof.
  intros Hok H1 H2.
  destruct (existing_success_notifies this (ExistingPurchasesReply.make base rs1) w Hok)
    as [w1 [Hr1 Hn1]].
  destruct (existing_success_notifies this (ExistingPurchasesReply.make base rs2) w Hok)
    as [w2 [Hr2 Hn2]].
  destruct (existing_success_notifies this
              (ExistingPurchasesReply.make base (rs1 ++ rs2)) w Hok)
    as [w12 [Hr12 Hn12]].
  cbn [ExistingPurchasesReply.purchases] in Hn1, Hn2, Hn12.
  exists (fold_left foreach_body rs1 ""), (fold_left foreach_body rs2 ""), w1, w2, w12.
  destruct rs1 as [|a rs1]; [contradiction|].
  destruct rs2 as [|b rs2]; [contradiction|].
  repeat split; try assumption.
  rewrite Hn12, <- foreach_app. reflexivity.
Qed.

Lemma listing_of_appended_lists_witness :
  isError okReply = false /\
  [sampleReceipt] <> [] /\
  [sampleSubscription; sampleReceipt] <> [] /\
  exists text1 text2 w1 w2 w12,
    existingPurchasesResponse
      (with_sender
         (Some (3, IsExistingPurchasesReply
                     (ExistingPurchasesReply.make okReply [sampleReceipt])))
         initial_world) = Some (tt, w1) /\
    notifications (trace w1) =
      (notifications (trace initial_world) ++
       [existingPurchasesResponseSuccess text1])%list /\
    existingPurchasesResponse
      (with_sender
         (Some (3, IsExistingPurchasesReply
                     (ExistingPurchasesReply.make okReply
                        [sampleSubscription; sampleReceipt])))
         initial_world) = Some (tt, w2) /\
    notifications (trace w2) =
      (notifications (trace initial_world) ++
       [existingPurchasesResponseSuccess text2])%list /\
    existingPurchasesResponse
      (with_sender
         (Some (3, IsExistingPurchasesReply
                     (ExistingPurchasesReply.make okReply
                        ([sampleReceipt] ++ [sampleSubscription; sampleReceipt]))))
         initial_world) = Some (tt, w12) /\
    notifications (trace w12) =
      (notifications (trace initial_world) ++
       [existingPurchasesResponseSuccess (text1 ++ text2)])%list.
Proof.
  split; [reflexivity|]. split; [discriminate|]. split; [discriminate|].
  apply (listing_of_appended_lists 3 okReply [sampleReceipt]
           [sampleSubscription; sampleReceipt] initial_world);
    [reflexivity | discriminate | discriminate].
Defined.

(** X17: the listing of a non-empty list of receipts begins with the
    label of the first block's date line, so it is never the text
    (No purchases) that stands for the empty list: the two cases cannot
    be confused by the payload. *)
Theorem listing_differs_from_placeholder
        (this : ReplyPtr) (reply : ExistingPurchasesReply.t) (w : World) :
  isError reply = false ->
  ExistingPurchasesReply.purchases reply <> [] ->
  exists w' rest,
    existingPurchasesResponse
      (with_sender (Some (this, IsExistingPurchasesReply reply)) w) = Some (tt, w') /\
    notifications (trace w') =
      (notifications (trace w) ++
       [existingPurchasesResponseSuccess ("Date: " ++ rest)])%list /\
    "Date: " ++ rest <> "(No purchases)".
Proof.
  intros Hok Hne.
  destruct (existing_success_notifies this reply w Hok) as [w' [Hrun Hsig]].
  destruct (ExistingPurchasesReply.purchases reply) as [|r rs]; [contradiction|].
  cbn [QList_isEmpty] in Hsig.
  change (fold_left foreach_body (r :: rs) "")
    with (fold_left foreach_body rs (foreach_body "" r)) in Hsig.
  rewrite foreach_acc in Hsig.
  unfold foreach_body at 1 in Hsig. unfold receiptToString in Hsig.
  cbn [append] in Hsig.
  eexists w', _. split; [exact Hrun|]. split.
  - rewrite Hsig. cbn [append]. reflexivity.
  - discriminate.
Qed.

Lemma listing_differs_from_placeholder_witness :
  isError twoPurchases = false /\
  ExistingPurchasesReply.purchases twoPurchases <> [] /\
  exists w' rest,
    existingPurchasesResponse
      (with_sender (Some (1, IsExistingPurchasesReply twoPurchases)) twoInFlight) =
      Some (tt, w') /\
    notifications (trace w') =
      (notifications (trace twoInFlight) ++
       [existingPurchasesResponseSuccess ("Date: " ++ rest)])%list /\
    "Date: " ++ rest <> "(No purchases)".
Proof.
  split; [reflexivity|]. split; [discriminate|].
  apply (listing_differs_from_placeholder 1 twoPurchases twoInFlight);
    [reflexivity | discriminate].
Defined.
